(** * RSGISLib: per-pixel calibration visitors and the ISODATA pixel passes

    A shallow embedding of
    - [src/calibration/RSGISStandardDN2RadianceCalibration.cpp]: the eight
      [calcImageValue] bodies of the DN-to-radiance calibrations,
    - [src/classifier/RSGISISODATAImageClassifier.h]: the three ISODATA
      visitor classes and their inline [calcImageValue] overloads,
    - [src/img/RSGISCalcImageValue.h]: the visitor interface.

    A [float*] buffer is a [list] of numbers read with [!!] and written
    with [<[i:=x]>]; an access outside the buffer is [Undefined].  A call
    ends in an [Outcome]: it returns, it throws (the buffer as it is at
    the [throw] is kept), or it is undefined.

    The bodies of the ISODATA classes that the header only declares are
    modelled from the design text, and marked so. *)

From Stdlib Require Import ZArith QArith Qcanon String Lia.
From Stdlib Require Import Floats.SpecFloat.
From stdpp Require Import base list.

Local Open Scope nat_scope.

(** ** Arithmetic

    The structs behind [radGainOff] are declared in a header that is not
    part of the sources at hand, so the number type of their fields is a
    parameter: a carrier with the operations the bodies use, rounding
    included.  [of_int] is the conversion of an [int] literal or operand,
    [to_int] is the conversion [int(x)], which truncates, and is [None]
    where C++ leaves the conversion undefined.

    Some locals and members are declared [double] ([double gain] in the
    Landsat and IRS bodies, [double sumDist] in the Accumulator): [double]
    is the carrier of those, [to_double] the conversion C++ makes of an
    operand of the number type that meets a [double], [dadd] and [dmul] the
    sum and the product of two [double]s, and [of_double] the conversion at
    a store into the number type, which rounds.

    Two carriers are given: IEEE 754 single precision with double precision
    for [double], which are the [float] and the [double] of the
    signatures, and the exact rationals, which need no rounding. *)

Class Arith (num : Type) := {
  fzero : num;
  fadd : num → num → num;
  fsub : num → num → num;
  fmul : num → num → num;
  fdiv : num → num → num;
  of_int : Z → num;
  to_int : num → option Z;
  double : Type;
  to_double : num → double;
  of_double : double → num;
  dadd : double → double → double;
  dmul : double → double → double
}.

(** Square root and the comparison [<], which the distance computations of
    the ISODATA passes need. *)
Class Metric (num : Type) := {
  fsqrt : num → num;
  fltb : num → num → bool
}.

Declare Scope num_scope.
Delimit Scope num_scope with num.
Notation "x + y" := (fadd x y) : num_scope.
Notation "x - y" := (fsub x y) : num_scope.
Notation "x * y" := (fmul x y) : num_scope.
Notation "x / y" := (fdiv x y) : num_scope.
Notation "x <? y" := (fltb x y) : num_scope.

Definition INT_MIN : Z := - 2 ^ 31.
Definition INT_MAX : Z := 2 ^ 31 - 1.
Definition UINT_MODULUS : Z := 2 ^ 32.
Definition ULONG_MODULUS : Z := 2 ^ 64.

Definition in_int_range (z : Z) : option Z :=
  if ((INT_MIN <=? z) && (z <=? INT_MAX))%Z then Some z else None.

(** *** IEEE 754 double precision, the C++ [double] *)
Module Binary64.
Definition prec : Z := 53.
Definition emax : Z := 1024.
End Binary64.

(** *** IEEE 754 single precision, the C++ [float] *)
Module Binary32.
Definition prec : Z := 24.
Definition emax : Z := 128.

(** The conversion of a [float] to [double]: every [float] is a [double],
    here with the mantissa and exponent of that format. *)
Definition to_binary64 (x : spec_float) : spec_float :=
  match x with
  | S754_finite s m e => binary_round Binary64.prec Binary64.emax s m e
  | _ => x
  end.

(** The conversion of a [double] to [float]: the nearest [float], an
    infinity beyond the largest. *)
Definition of_binary64 (x : spec_float) : spec_float :=
  match x with
  | S754_finite s m e => binary_round prec emax s m e
  | _ => x
  end.

(** The float nearest to [m * 2^e]. *)
Definition make (m e : Z) : spec_float := binary_normalize prec emax m e false.

Definition truncate (x : spec_float) : option Z :=
  match x with
  | S754_zero _ => Some 0%Z
  | S754_finite s m e =>
      let a := match e with
               | Zneg p => Z.shiftr (Zpos m) (Zpos p)
               | _ => Z.shiftl (Zpos m) e
               end in
      in_int_range (if s then - a else a)%Z
  | S754_infinity _ | S754_nan => None
  end.

(** The order of the floats that are numbers: [SFltb] compares them as
    it compares their keys, lexicographically. *)
Definition is_nan (x : spec_float) : bool :=
  match x with S754_nan => true | _ => false end.

Definition key (x : spec_float) : Z * (Z * Z) :=
  match x with
  | S754_zero _ => (0, (0, 0))
  | S754_infinity false => (2, (0, 0))
  | S754_infinity true => (-2, (0, 0))
  | S754_finite false m e => (1, (e, Zpos m))
  | S754_finite true m e => (-1, (- e, Zneg m))
  | S754_nan => (0, (0, 0))
  end%Z.

Definition keyLt (a b : Z * (Z * Z)) : Prop :=
  (a.1 < b.1 ∨ (a.1 = b.1 ∧ (a.2.1 < b.2.1 ∨ (a.2.1 = b.2.1 ∧ a.2.2 < b.2.2))))%Z.

#[global] Instance arith : Arith spec_float := {|
  fzero := S754_zero false;
  fadd := SFadd prec emax;
  fsub := SFsub prec emax;
  fmul := SFmul prec emax;
  fdiv := SFdiv prec emax;
  of_int := fun z => make z 0;
  to_int := truncate;
  double := spec_float;
  to_double := to_binary64;
  of_double := of_binary64;
  dadd := SFadd Binary64.prec Binary64.emax;
  dmul := SFmul Binary64.prec Binary64.emax
|}.

#[global] Instance metric : Metric spec_float := {|
  fsqrt := SFsqrt prec emax;
  fltb := SFltb
|}.
End Binary32.

(** *** Exact rational arithmetic *)
Module Exact.
Definition truncate (q : Qc) : option Z :=
  in_int_range (Z.quot (Qnum (this q)) (Zpos (Qden (this q)))).

#[global] Instance arith : Arith Qc := {|
  fzero := Q2Qc 0;
  fadd := Qcplus;
  fsub := Qcminus;
  fmul := Qcmult;
  fdiv := Qcdiv;
  of_int := fun z => Q2Qc (inject_Z z);
  to_int := truncate;
  double := Qc;
  to_double := fun q => q;
  of_double := fun q => q;
  dadd := Qcplus;
  dmul := Qcmult
|}.
End Exact.

(** ** Exceptions and outcomes *)

Inductive Exception :=
| RSGISImageCalcException (what : string)
| RSGISClassificationException (what : string).

Inductive Outcome (St : Type) :=
| Returned (s : St)
| Thrown (e : Exception) (s : St)
| Undefined.
Arguments Returned {St} s.
Arguments Thrown {St} e s.
Arguments Undefined {St}.

Definition mapOutcome {A B : Type} (f : A → B) (r : Outcome A) : Outcome B :=
  match r with
  | Returned s => Returned (f s)
  | Thrown e s => Thrown e (f s)
  | Undefined => Undefined
  end.

(** What a call that returns leaves behind. *)
Definition returned {A : Type} (r : Outcome A) : option A :=
  match r with
  | Returned s => Some s
  | _ => None
  end.

(** How a call ends, whatever it leaves behind. *)
Definition outcomeKind {A : Type} (r : Outcome A) : Outcome unit := mapOutcome (λ _, ()) r.

Definition band_not_within : Exception :=
  RSGISImageCalcException "Band is not within input image bands.".

(** [for(unsigned int i = 0; i < this->numOutBands; ++i)]: [numOutBands] is
    an [int] ([RSGISCalcImageValue.h]), compared with an [unsigned int], so it
    is converted to [unsigned int] first. *)
Definition loopBound (numOutBands : Z) : nat :=
  Z.to_nat (numOutBands mod UINT_MODULUS).

(** ** The loop the calibrations share

    Every body is the same loop around one line of arithmetic:
<<
    for(unsigned int i = 0; i < this->numOutBands; ++i) {
        if(this->radGainOff[i].band > numBands) throw ...;
        output[i] = <value of radGainOff[i] and bandValues[i]>;
    }
>>
    [bandLoop band value n i] runs the [n] iterations from index [i]. *)
Section BandLoop.
Context {num G : Type} (band : G → Z) (value : G → num → num).

Fixpoint bandLoop (n i : nat) (radGainOff : list G) (bandValues : list num)
    (numBands : Z) (output : list num) : Outcome (list num) :=
  match n with
  | O => Returned output
  | S n' =>
      match radGainOff !! i with
      | None => Undefined
      | Some g =>
          if (band g >? numBands)%Z then Thrown band_not_within output
          else
            match bandValues !! i with
            | None => Undefined
            | Some v =>
                if decide (i < length output)
                then bandLoop n' (S i) radGainOff bandValues numBands
                       (<[i := value g v]> output)
                else Undefined
            end
      end
  end.
End BandLoop.

(** [for(...) output[i] = 0;] of the Landsat border branch. *)
Fixpoint zeroLoop {num} {ops : Arith num} (n i : nat) (output : list num) : Outcome (list num) :=
  match n with
  | O => Returned output
  | S n' =>
      if decide (i < length output)
      then zeroLoop n' (S i) (<[i := fzero]> output)
      else Undefined
  end.

(** ** The calibrations

    One module per class of [RSGISStandardDN2RadianceCalibration.cpp].  The
    record of a module holds the fields of [radGainOff[i]] that the body
    reads, the band number as an integer that is compared with [numBands]
    as the integers they are; [value g v] is the right-hand side of the
    assignment to [output[i]], with [v] standing for [bandValues[i]]. *)

Module RSGISLandsatRadianceCalibration.
Record GainsOffsets {num : Type} :=
  { band : Z; lMax : num; lMin : num; qCalMax : num; qCalMin : num }.
Arguments GainsOffsets : clear implicits.

Section Body.
Context {num : Type} {ops : Arith num}.

(** The two lines of the loop body.  [gain] is a [double]: the quotient is
    taken in the number type of the fields and converted.  In the second
    line the difference is taken in the number type, the product with
    [gain] and the sum with [lMin] in [double], and the store into
    [output[i]] converts the sum back. *)
Definition value (g : GainsOffsets num) (v : num) : num :=
  let gain : double := to_double ((lMax g - lMin g) / (qCalMax g - qCalMin g))%num in
  of_double (dadd (dmul gain (to_double (v - qCalMin g)%num)) (to_double (lMin g))).

(** [if (int(bandValues[0]) == 0)]: the border branch fills the output
    with zeros, the other branch is the checked loop. *)
Definition calcImageValue (numOutBands : Z) (radGainOff : list (GainsOffsets num))
    (bandValues : list num) (numBands : Z) (output : list num) : Outcome (list num) :=
  match bandValues !! 0 with
  | None => Undefined
  | Some v0 =>
      match to_int v0 with
      | None => Undefined
      | Some z =>
          if (z =? 0)%Z
          then zeroLoop (loopBound numOutBands) 0 output
          else bandLoop band value (loopBound numOutBands) 0
                 radGainOff bandValues numBands output
      end
  end.
End Body.
End RSGISLandsatRadianceCalibration.

Module RSGISSPOTRadianceCalibration.
Record GainsOffsets {num : Type} := { band : Z; gain : num }.
Arguments GainsOffsets : clear implicits.

Section Body.
Context {num : Type} {ops : Arith num}.

Definition value (g : GainsOffsets num) (v : num) : num := (v / gain g)%num.

Definition calcImageValue (numOutBands : Z) (radGainOff : list (GainsOffsets num))
    (bandValues : list num) (numBands : Z) (output : list num) : Outcome (list num) :=
  bandLoop band value (loopBound numOutBands) 0 radGainOff bandValues numBands output.
End Body.
End RSGISSPOTRadianceCalibration.

Module RSGISIkonosRadianceCalibration.
Record GainsOffsets {num : Type} := { band : Z; calCoef : num; bandwidth : num }.
Arguments GainsOffsets : clear implicits.

Section Body.
Context {num : Type} {ops : Arith num}.

Definition value (g : GainsOffsets num) (v : num) : num :=
  ((of_int 100000 * v) / (calCoef g * bandwidth g))%num.

Definition calcImageValue (numOutBands : Z) (radGainOff : list (GainsOffsets num))
    (bandValues : list num) (numBands : Z) (output : list num) : Outcome (list num) :=
  bandLoop band value (loopBound numOutBands) 0 radGainOff bandValues numBands output.
End Body.
End RSGISIkonosRadianceCalibration.

Module RSGISASTERRadianceCalibration.
Record GainsOffsets {num : Type} := { band : Z; unitConCoef : num }.
Arguments GainsOffsets : clear implicits.

Section Body.
Context {num : Type} {ops : Arith num}.

Definition value (g : GainsOffsets num) (v : num) : num :=
  ((v - of_int 1) * unitConCoef g)%num.

Definition calcImageValue (numOutBands : Z) (radGainOff : list (GainsOffsets num))
    (bandValues : list num) (numBands : Z) (output : list num) : Outcome (list num) :=
  bandLoop band value (loopBound numOutBands) 0 radGainOff bandValues numBands output.
End Body.
End RSGISASTERRadianceCalibration.

Module RSGISIRSRadianceCalibration.
Record GainsOffsets {num : Type} :=
  { band : Z; lMax : num; lMin : num; qCalMax : num; qCalMin : num }.
Arguments GainsOffsets : clear implicits.

Section Body.
Context {num : Type} {ops : Arith num}.

(** The two lines of the loop body.  [gain] is a [double]: the quotient is
    taken in the number type of the fields and converted.  In the second
    line the difference is taken in the number type, the product with
    [gain] and the sum with [lMin] in [double], and the store into
    [output[i]] converts the sum back. *)
Definition value (g : GainsOffsets num) (v : num) : num :=
  let gain : double := to_double ((lMax g - lMin g) / (qCalMax g - qCalMin g))%num in
  of_double (dadd (dmul gain (to_double (v - qCalMin g)%num)) (to_double (lMin g))).

Definition calcImageValue (numOutBands : Z) (radGainOff : list (GainsOffsets num))
    (bandValues : list num) (numBands : Z) (output : list num) : Outcome (list num) :=
  bandLoop band value (loopBound numOutBands) 0 radGainOff bandValues numBands output.
End Body.
End RSGISIRSRadianceCalibration.

Module RSGISQuickbird16bitRadianceCalibration.
Record GainsOffsets {num : Type} := { band : Z; calFactor : num; bandIntegrate : num }.
Arguments GainsOffsets : clear implicits.

Section Body.
Context {num : Type} {ops : Arith num}.

Definition value (g : GainsOffsets num) (v : num) : num :=
  ((v * calFactor g) / bandIntegrate g)%num.

Definition calcImageValue (numOutBands : Z) (radGainOff : list (GainsOffsets num))
    (bandValues : list num) (numBands : Z) (output : list num) : Outcome (list num) :=
  bandLoop band value (loopBound numOutBands) 0 radGainOff bandValues numBands output.
End Body.
End RSGISQuickbird16bitRadianceCalibration.

Module RSGISQuickbird8bitRadianceCalibration.
Record GainsOffsets {num : Type} :=
  { band : Z; calFactor : num; k : num; bandIntegrate : num }.
Arguments GainsOffsets : clear implicits.

Section Body.
Context {num : Type} {ops : Arith num}.

Definition value (g : GainsOffsets num) (v : num) : num :=
  ((v * calFactor g * k g) / bandIntegrate g)%num.

Definition calcImageValue (numOutBands : Z) (radGainOff : list (GainsOffsets num))
    (bandValues : list num) (numBands : Z) (output : list num) : Outcome (list num) :=
  bandLoop band value (loopBound numOutBands) 0 radGainOff bandValues numBands output.
End Body.
End RSGISQuickbird8bitRadianceCalibration.

Module RSGISWorldView2RadianceCalibration.
Record GainsOffsets {num : Type} := { band : Z; calFactor : num; bandIntegrate : num }.
Arguments GainsOffsets : clear implicits.

Section Body.
Context {num : Type} {ops : Arith num}.

Definition value (g : GainsOffsets num) (v : num) : num :=
  ((calFactor g * v) / bandIntegrate g)%num.

Definition calcImageValue (numOutBands : Z) (radGainOff : list (GainsOffsets num))
    (bandValues : list num) (numBands : Z) (output : list num) : Outcome (list num) :=
  bandLoop band value (loopBound numOutBands) 0 radGainOff bandValues numBands output.
End Body.
End RSGISWorldView2RadianceCalibration.

Module Landsat := RSGISLandsatRadianceCalibration.
Module SPOT := RSGISSPOTRadianceCalibration.
Module Ikonos := RSGISIkonosRadianceCalibration.
Module ASTER := RSGISASTERRadianceCalibration.
Module IRS := RSGISIRSRadianceCalibration.
Module QB16 := RSGISQuickbird16bitRadianceCalibration.
Module QB8 := RSGISQuickbird8bitRadianceCalibration.
Module WV2 := RSGISWorldView2RadianceCalibration.


(** ** The visitor interface

    A calibration is used through [RSGISCalcImageValue*]: the call
    [calcImageValue(bandValues, numBands, output)] goes to the body of the
    object's class. *)
Inductive Calibration (num : Type) :=
| LandsatCalibration (radGainOff : list (Landsat.GainsOffsets num))
| SPOTCalibration (radGainOff : list (SPOT.GainsOffsets num))
| IkonosCalibration (radGainOff : list (Ikonos.GainsOffsets num))
| ASTERCalibration (radGainOff : list (ASTER.GainsOffsets num))
| IRSCalibration (radGainOff : list (IRS.GainsOffsets num))
| Quickbird16bitCalibration (radGainOff : list (QB16.GainsOffsets num))
| Quickbird8bitCalibration (radGainOff : list (QB8.GainsOffsets num))
| WorldView2Calibration (radGainOff : list (WV2.GainsOffsets num)).
Arguments LandsatCalibration {num} radGainOff.
Arguments SPOTCalibration {num} radGainOff.
Arguments IkonosCalibration {num} radGainOff.
Arguments ASTERCalibration {num} radGainOff.
Arguments IRSCalibration {num} radGainOff.
Arguments Quickbird16bitCalibration {num} radGainOff.
Arguments Quickbird8bitCalibration {num} radGainOff.
Arguments WorldView2Calibration {num} radGainOff.

Section Visitor.
Context {num : Type} {ops : Arith num}.

Definition calcImageValue (this : Calibration num) (numOutBands : Z)
    (bandValues : list num) (numBands : Z) (output : list num) : Outcome (list num) :=
  match this with
  | LandsatCalibration g => Landsat.calcImageValue numOutBands g bandValues numBands output
  | SPOTCalibration g => SPOT.calcImageValue numOutBands g bandValues numBands output
  | IkonosCalibration g => Ikonos.calcImageValue numOutBands g bandValues numBands output
  | ASTERCalibration g => ASTER.calcImageValue numOutBands g bandValues numBands output
  | IRSCalibration g => IRS.calcImageValue numOutBands g bandValues numBands output
  | Quickbird16bitCalibration g => QB16.calcImageValue numOutBands g bandValues numBands output
  | Quickbird8bitCalibration g => QB8.calcImageValue numOutBands g bandValues numBands output
  | WorldView2Calibration g => WV2.calcImageValue numOutBands g bandValues numBands output
  end.

(** The configured band numbers [radGainOff[i].band], in order. *)
Definition bands (this : Calibration num) : list Z :=
  match this with
  | LandsatCalibration g => Landsat.band <$> g
  | SPOTCalibration g => SPOT.band <$> g
  | IkonosCalibration g => Ikonos.band <$> g
  | ASTERCalibration g => ASTER.band <$> g
  | IRSCalibration g => IRS.band <$> g
  | Quickbird16bitCalibration g => QB16.band <$> g
  | Quickbird8bitCalibration g => QB8.band <$> g
  | WorldView2Calibration g => WV2.band <$> g
  end.

(** What each entry of [radGainOff] makes of the band value it is given. *)
Definition values (this : Calibration num) : list (num → num) :=
  match this with
  | LandsatCalibration g => Landsat.value <$> g
  | SPOTCalibration g => SPOT.value <$> g
  | IkonosCalibration g => Ikonos.value <$> g
  | ASTERCalibration g => ASTER.value <$> g
  | IRSCalibration g => IRS.value <$> g
  | Quickbird16bitCalibration g => QB16.value <$> g
  | Quickbird8bitCalibration g => QB8.value <$> g
  | WorldView2Calibration g => WV2.value <$> g
  end.

(** The same calibration with [radGainOff[i].band] set to [f i]. *)
Definition rebrand (f : nat → Z) (this : Calibration num) : Calibration num :=
  match this with
  | LandsatCalibration g => LandsatCalibration
      (imap (λ i x, {| Landsat.band := f i; Landsat.lMax := Landsat.lMax x;
                       Landsat.lMin := Landsat.lMin x; Landsat.qCalMax := Landsat.qCalMax x;
                       Landsat.qCalMin := Landsat.qCalMin x |}) g)
  | SPOTCalibration g => SPOTCalibration
      (imap (λ i x, {| SPOT.band := f i; SPOT.gain := SPOT.gain x |}) g)
  | IkonosCalibration g => IkonosCalibration
      (imap (λ i x, {| Ikonos.band := f i; Ikonos.calCoef := Ikonos.calCoef x;
                       Ikonos.bandwidth := Ikonos.bandwidth x |}) g)
  | ASTERCalibration g => ASTERCalibration
      (imap (λ i x, {| ASTER.band := f i; ASTER.unitConCoef := ASTER.unitConCoef x |}) g)
  | IRSCalibration g => IRSCalibration
      (imap (λ i x, {| IRS.band := f i; IRS.lMax := IRS.lMax x; IRS.lMin := IRS.lMin x;
                       IRS.qCalMax := IRS.qCalMax x; IRS.qCalMin := IRS.qCalMin x |}) g)
  | Quickbird16bitCalibration g => Quickbird16bitCalibration
      (imap (λ i x, {| QB16.band := f i; QB16.calFactor := QB16.calFactor x;
                       QB16.bandIntegrate := QB16.bandIntegrate x |}) g)
  | Quickbird8bitCalibration g => Quickbird8bitCalibration
      (imap (λ i x, {| QB8.band := f i; QB8.calFactor := QB8.calFactor x; QB8.k := QB8.k x;
                       QB8.bandIntegrate := QB8.bandIntegrate x |}) g)
  | WorldView2Calibration g => WorldView2Calibration
      (imap (λ i x, {| WV2.band := f i; WV2.calFactor := WV2.calFactor x;
                       WV2.bandIntegrate := WV2.bandIntegrate x |}) g)
  end.

(** The pixel is one the Landsat body takes for the image border:
    [int(bandValues[0]) == 0]. *)
Definition isBorder (bandValues : list num) : Prop :=
  ∃ v0, bandValues !! 0 = Some v0 ∧ to_int v0 = Some 0%Z.

(** The pixel is one the Landsat body calibrates. *)
Definition notBorder (bandValues : list num) : Prop :=
  ∃ v0 z, bandValues !! 0 = Some v0 ∧ to_int v0 = Some z ∧ z ≠ 0%Z.

(** The call reaches the checked loop: always, except for a Landsat border
    pixel (or a Landsat pixel whose first value cannot be converted). *)
Definition reachesLoop (this : Calibration num) (bandValues : list num) : Prop :=
  match this with
  | LandsatCalibration _ => notBorder bandValues
  | _ => True
  end.

End Visitor.


(** ** Vocabulary of the statements *)
Section Vocabulary.
Context {num G : Type} (band : G → Z) (value : G → num → num).

(** [output'] is [output] with the entries from [i] up to [j] calibrated
    and every other entry as it was. *)
Definition calibratedBetween (i j : nat) (radGainOff : list G) (bandValues : list num)
    (output output' : list num) : Prop :=
  length output' = length output
  ∧ (∀ k, k < i ∨ j ≤ k → output' !! k = output !! k)
  ∧ (∀ k, i ≤ k < j → ∃ g v,
        radGainOff !! k = Some g ∧ bandValues !! k = Some v
        ∧ output' !! k = Some (value g v)).

(** The configured bands of the entries from [i] up to [j] are within the
    [numBands] input bands. *)
Definition bandsWithin (i j : nat) (radGainOff : list G) (numBands : Z) : Prop :=
  ∀ k, i ≤ k < j → ∃ g, radGainOff !! k = Some g ∧ (band g ≤ numBands)%Z.

(** Iteration [j] leaves one of its three buffers. *)
Definition accessOutside (j : nat) (radGainOff : list G) (bandValues : list num)
    (numBands : Z) (output : list num) : Prop :=
  radGainOff !! j = None
  ∨ ∃ g, radGainOff !! j = Some g ∧ (band g ≤ numBands)%Z
         ∧ (bandValues !! j = None ∨ length output ≤ j).
End Vocabulary.

Section CalibrationVocabulary.
Context {num : Type} {ops : Arith num}.

(** The band number and the arithmetic of every entry of [radGainOff]. *)
Definition perBand (this : Calibration num) : list (Z * (num → num)) :=
  zip (bands this) (values this).

(** The same per-band parameters, as a Quickbird 16 bit entry. *)
Definition WorldView2_as_Quickbird16 (g : WV2.GainsOffsets num) : QB16.GainsOffsets num :=
  {| QB16.band := WV2.band g;
     QB16.calFactor := WV2.calFactor g;
     QB16.bandIntegrate := WV2.bandIntegrate g |}.

(** The Quickbird 16 bit entry with the band, [calFactor] and
    [bandIntegrate] of a Quickbird 8 bit entry. *)
Definition Quickbird8_as_Quickbird16 (g : QB8.GainsOffsets num) : QB16.GainsOffsets num :=
  {| QB16.band := QB8.band g;
     QB16.calFactor := QB8.calFactor g;
     QB16.bandIntegrate := QB8.bandIntegrate g |}.
End CalibrationVocabulary.


(** ** ISODATA: centroids and the nearest-centroid search

    [RSGISISODATAImageClassifier.h] declares the classifier and its three
    visitors; the bodies that are not inline live in a file that is not
    among the sources at hand, and are modelled from the design text. *)

(** Modelled from the spec: the struct [ClusterCentreISO] of
    [classifier/RSGISClassifier.h] is missing; a centroid is an integer
    cluster ID, the per-band mean, the per-band standard deviation and the
    population count.  In the working set of a pass the same record holds
    the running sum, the running sum of squares and the count. *)
Record ClusterCentreISO {num : Type} :=
  { clusterID : nat; mean : list num; stdDev : list num; population : nat }.
Arguments ClusterCentreISO : clear implicits.

Section Distance.
Context {num : Type} {ops : Arith num} {metric : Metric num}.

(** Modelled from the spec: the missing border test of the passes; a pixel
    vector whose first band value truncates to exactly 0 is a border or
    no-data pixel. *)
Definition isBorderPixel (v : list num) : bool :=
  match v with
  | v0 :: _ => match to_int v0 with Some 0%Z => true | _ => false end
  | [] => false
  end.

(** Modelled from the spec: the missing distance computation; the sum over
    the bands of the squared differences. *)
Definition sumSquaredDifferences (v m : list num) : num :=
  foldl (λ acc p, acc + (p.1 - p.2) * (p.1 - p.2))%num fzero (zip v m).

(** Modelled from the spec: the missing distance computation; the Euclidean
    distance in band space from a pixel vector to a mean vector. *)
Definition euclideanDistance (v m : list num) : num :=
  fsqrt (sumSquaredDifferences v m).

(** Modelled from the spec: the missing search loop of the Accumulator and
    of the Std-Dev pass; the distance to every published centroid is
    computed in iteration order and the minimum is selected, a later
    centroid replacing the current one only when it is strictly nearer, so
    that of equally near centroids the first stays.  [best] and [bestDist] are the index
    and distance of the current choice, [i] the index of the head of
    [cs]. *)
Fixpoint nearestFrom (v : list num) (cs : list (ClusterCentreISO num))
    (i best : nat) (bestDist : num) : nat * num :=
  match cs with
  | [] => (best, bestDist)
  | c :: cs' =>
      let d := euclideanDistance v (mean c) in
      if (d <? bestDist)%num
      then nearestFrom v cs' (S i) i d
      else nearestFrom v cs' (S i) best bestDist
  end.

(** Modelled from the spec: the missing search, started on the first
    published centroid; with its index comes the minimum distance. *)
Definition nearestCentre (v : list num) (cs : list (ClusterCentreISO num)) : option (nat * num) :=
  match cs with
  | [] => None
  | c :: cs' => Some (nearestFrom v cs' 1 0 (euclideanDistance v (mean c)))
  end.

End Distance.

Definition not_implemented_1 : Exception := RSGISImageCalcException "Not Implemented".
Definition not_implemented_2 : Exception := RSGISImageCalcException "Not implemented".
Definition not_implemented_3 : Exception := RSGISImageCalcException "No implemented".

(** ** The Accumulator: [RSGISISODATACalcPixelClusterCalcImageVal] *)
Module RSGISISODATACalcPixelClusterCalcImageVal.

(** The protected members of the class (lines 89 to 93 of the header),
    with the memory they point into.  [clusterCentres] and
    [newClusterCentres] are vectors of [ClusterCentreISO*]: [objects] holds
    the centroid objects there are, a pointer is the index of its object,
    and two vectors that hold one index share that object.
    [numImageBands] is an [unsigned int], [sumDist] a [double], and
    [numVals] an [unsigned long], which counts modulo 2^64. *)
Record State {num : Type} {ops : Arith num} := {
  objects : list (ClusterCentreISO num);
  clusterCentres : list nat;
  newClusterCentres : list nat;
  numImageBands : Z;
  sumDist : double;
  numVals : Z
}.
Arguments State num {ops}.

Section Body.
Context {num : Type} {ops : Arith num} {metric : Metric num}.

(** The centroids that a vector of pointers points to, in the order of the
    vector; [None] when one of the pointers is to no object. *)
Definition pointees (objs : list (ClusterCentreISO num)) (pointers : list nat)
    : option (list (ClusterCentreISO num)) :=
  mapM (λ p, objs !! p) pointers.

(** The published centroid set, as [clusterCentres] gives it. *)
Definition published (this : State num) : option (list (ClusterCentreISO num)) :=
  pointees (objects this) (clusterCentres this).

(** The working set, as [newClusterCentres] gives it. *)
Definition working (this : State num) : option (list (ClusterCentreISO num)) :=
  pointees (objects this) (newClusterCentres this).

(** Modelled from the spec: the missing accumulation step; the pixel vector
    is added to the running sum, its squares to the running sum of squares,
    and the count goes up by one. *)
Definition accumulate (v : list num) (c : ClusterCentreISO num) : ClusterCentreISO num :=
  {| clusterID := clusterID c;
     mean := zip_with (λ s x, s + x)%num (mean c) v;
     stdDev := zip_with (λ s x, s + x * x)%num (stdDev c) v;
     population := S (population c) |}.

(** Modelled from the spec: the body of
    [calcImageValue(float *bandValues, int numBands)] is missing.  A border
    pixel is skipped.  For any other pixel the nearest published centroid is
    found, the published centroids being read through the pointers of
    [clusterCentres]; a band count of the image below the configured one is
    the band range error; and the pixel is accumulated into the object that
    the pointer of the same index in [newClusterCentres] points to.  The
    minimum distance is added to [sumDist] and [numVals] counts the pixel.
    A pointer to no object, or no pointer at that index, is an access
    outside the memory; with no published centroid the design gives no
    behaviour. *)
Definition calcImageValue (this : State num) (bandValues : list num) (numBands : Z)
    : Outcome (State num) :=
  if isBorderPixel bandValues then Returned this
  else
    match published this with
    | None => Undefined
    | Some centres =>
        match nearestCentre bandValues centres with
        | None => Undefined
        | Some (r, d) =>
            if (numImageBands this >? numBands)%Z then Thrown band_not_within this
            else
              match newClusterCentres this !! r with
              | None => Undefined
              | Some p =>
                  match objects this !! p with
                  | None => Undefined
                  | Some w =>
                      Returned
                        {| objects := <[p := accumulate bandValues w]> (objects this);
                           clusterCentres := clusterCentres this;
                           newClusterCentres := newClusterCentres this;
                           numImageBands := numImageBands this;
                           sumDist := dadd (sumDist this) (to_double d);
                           numVals := (numVals this + 1) mod ULONG_MODULUS |}
                  end
              end
        end
    end.

(** Modelled from the spec: the raster iteration is not among the sources;
    in one pass it calls the visitor on every pixel in turn, and an
    exception ends the pass. *)
Fixpoint pass (pixels : list (list num)) (numBands : Z) (this : State num)
    : Outcome (State num) :=
  match pixels with
  | [] => Returned this
  | v :: rest =>
      match calcImageValue this v numBands with
      | Returned this' => pass rest numBands this'
      | other => other
      end
  end.

End Body.
End RSGISISODATACalcPixelClusterCalcImageVal.

(** ** The Std-Dev pass: [RSGISISODATACalcPixelClusterStdDevCalcImageVal] *)
Module RSGISISODATACalcPixelClusterStdDevCalcImageVal.

Record State {num : Type} := {
  clusterCentres : list (ClusterCentreISO num);
  numImageBands : Z
}.
Arguments State : clear implicits.

Section Body.
Context {num : Type} {ops : Arith num} {metric : Metric num}.

(** Modelled from the spec: the missing accumulation of the Std-Dev pass;
    per band, the squared deviation of the pixel from the mean is added. *)
Definition addSquaredDeviation (v : list num) (c : ClusterCentreISO num) : ClusterCentreISO num :=
  {| clusterID := clusterID c;
     mean := mean c;
     stdDev := zip_with (λ s p, s + (p.1 - p.2) * (p.1 - p.2))%num (stdDev c) (zip v (mean c));
     population := population c |}.

(** Modelled from the spec: the body of
    [calcImageValue(float *bandValues, int numBands)] is missing.  For a
    pixel that is not a border pixel the squared deviation from the mean of
    its nearest centroid is added, per band, to that centroid's sum, from
    which the standard deviation is taken when the pass is over. *)
Definition calcImageValue (this : State num) (bandValues : list num) (numBands : Z)
    : Outcome (State num) :=
  if isBorderPixel bandValues then Returned this
  else
    match nearestCentre bandValues (clusterCentres this) with
    | None => Undefined
    | Some (r, _) =>
        if (numImageBands this >? numBands)%Z then Thrown band_not_within this
        else Returned
          {| clusterCentres := alter (addSquaredDeviation bandValues) r (clusterCentres this);
             numImageBands := numImageBands this |}
    end.

End Body.
End RSGISISODATACalcPixelClusterStdDevCalcImageVal.

(** ** The Labeler: [RSGISApplyISODATAClassifierCalcImageVal] *)
Module RSGISApplyISODATAClassifierCalcImageVal.

Record State {num : Type} := {
  clusterCentres : list (ClusterCentreISO num)
}.
Arguments State : clear implicits.

Section Body.
Context {num : Type} {ops : Arith num} {metric : Metric num}.

(** Modelled from the spec: the search loop of the Labeler is missing; it
    finds the nearest published centroid by the tie-break rule of the
    Accumulator, and what it keeps of the current choice is the cluster ID
    it is going to write. *)
Fixpoint nearestIDFrom (v : list num) (cs : list (ClusterCentreISO num))
    (bestID : nat) (bestDist : num) : nat :=
  match cs with
  | [] => bestID
  | c :: cs' =>
      let d := euclideanDistance v (mean c) in
      if (d <? bestDist)%num
      then nearestIDFrom v cs' (clusterID c) d
      else nearestIDFrom v cs' bestID bestDist
  end.

(** Modelled from the spec: the missing search of the Labeler, started on
    the first published centroid. *)
Definition nearestID (v : list num) (cs : list (ClusterCentreISO num)) : option nat :=
  match cs with
  | [] => None
  | c :: cs' => Some (nearestIDFrom v cs' (clusterID c) (euclideanDistance v (mean c)))
  end.

(** Modelled from the spec: the body of
    [calcImageValue(float *bandValues, int numBands, float *output)] is
    missing.  With [ignoreZeros] a border pixel gets the sentinel label 0
    and no distance is computed; any other pixel gets the cluster ID of its
    nearest published centroid, written to the single output band. *)
Definition calcImageValue (ignoreZeros : bool) (this : State num)
    (bandValues : list num) (numBands : Z) (output : list num) : Outcome (list num) :=
  match output with
  | [] => Undefined
  | _ :: _ =>
      if ignoreZeros && isBorderPixel bandValues
      then Returned (<[0 := fzero]> output)
      else
        match nearestID bandValues (clusterCentres this) with
        | None => Undefined
        | Some id => Returned (<[0 := of_int (Z.of_nat id)]> output)
        end
  end.

End Body.
End RSGISApplyISODATAClassifierCalcImageVal.

Module Accumulator := RSGISISODATACalcPixelClusterCalcImageVal.
Module StdDevPass := RSGISISODATACalcPixelClusterStdDevCalcImageVal.
Module Labeler := RSGISApplyISODATAClassifierCalcImageVal.


(** ** The overloads of [calcImageValue]

    [RSGISCalcImageValue] declares eight overloads of [calcImageValue], all
    pure virtual; each ISODATA visitor defines seven of them inline, as a
    [throw], and declares one, whose body is out of line. *)

Inductive Overload :=
| ov_bands_output          (* float *bandValues, int numBands, float *output *)
| ov_bands                 (* float *bandValues, int numBands *)
| ov_ints_floats           (* long *intBandValues, unsigned int numIntVals,
                              float *floatBandValues, unsigned int numfloatVals *)
| ov_ints_floats_output    (* ..., float *output *)
| ov_bands_extent          (* float *bandValues, int numBands, Envelope extent *)
| ov_bands_output_extent   (* float *bandValues, int numBands, float *output, Envelope extent *)
| ov_block_output          (* float ***dataBlock, int numBands, int winSize, float *output *)
| ov_block_output_extent.  (* ..., Envelope extent *)

#[global] Instance Overload_eq_dec : EqDecision Overload.
Proof. solve_decision. Defined.

Inductive VisitorClass := AccumulatorClass | StdDevClass | LabelerClass.

(** [geos::geom::Envelope]. *)
Record Envelope {num : Type} := { minx : num; maxx : num; miny : num; maxy : num }.
Arguments Envelope : clear implicits.

(** The arguments of a call; the constructor tells the overload. *)
Inductive CallArgs (num : Type) :=
| BandsOutput (bandValues : list num) (numBands : Z) (output : list num)
| Bands (bandValues : list num) (numBands : Z)
| IntsFloats (intBandValues : list Z) (numIntVals : Z)
    (floatBandValues : list num) (numfloatVals : Z)
| IntsFloatsOutput (intBandValues : list Z) (numIntVals : Z)
    (floatBandValues : list num) (numfloatVals : Z) (output : list num)
| BandsExtent (bandValues : list num) (numBands : Z) (extent : Envelope num)
| BandsOutputExtent (bandValues : list num) (numBands : Z) (output : list num)
    (extent : Envelope num)
| BlockOutput (dataBlock : list (list (list num))) (numBands winSize : Z) (output : list num)
| BlockOutputExtent (dataBlock : list (list (list num))) (numBands winSize : Z)
    (output : list num) (extent : Envelope num).
Arguments BandsOutput {num}.
Arguments Bands {num}.
Arguments IntsFloats {num}.
Arguments IntsFloatsOutput {num}.
Arguments BandsExtent {num}.
Arguments BandsOutputExtent {num}.
Arguments BlockOutput {num}.
Arguments BlockOutputExtent {num}.

Definition overloadOf {num} (args : CallArgs num) : Overload :=
  match args with
  | BandsOutput _ _ _ => ov_bands_output
  | Bands _ _ => ov_bands
  | IntsFloats _ _ _ _ => ov_ints_floats
  | IntsFloatsOutput _ _ _ _ _ => ov_ints_floats_output
  | BandsExtent _ _ _ => ov_bands_extent
  | BandsOutputExtent _ _ _ _ => ov_bands_output_extent
  | BlockOutput _ _ _ _ => ov_block_output
  | BlockOutputExtent _ _ _ _ _ => ov_block_output_extent
  end.

(** The inline body of an overload in the header, [None] where the header
    only declares it: lines 75-82, 100-107 and 120-127. *)
Definition inlineBody (c : VisitorClass) (o : Overload) : option Exception :=
  match c, o with
  | AccumulatorClass, ov_bands_output => Some not_implemented_1
  | AccumulatorClass, ov_bands => None
  | AccumulatorClass, ov_ints_floats => Some not_implemented_2
  | AccumulatorClass, ov_ints_floats_output => Some not_implemented_2
  | AccumulatorClass, ov_bands_extent => Some not_implemented_1
  | AccumulatorClass, ov_bands_output_extent => Some not_implemented_1
  | AccumulatorClass, ov_block_output => Some not_implemented_1
  | AccumulatorClass, ov_block_output_extent => Some not_implemented_3
  | StdDevClass, ov_bands_output => Some not_implemented_1
  | StdDevClass, ov_bands => None
  | StdDevClass, ov_ints_floats => Some not_implemented_2
  | StdDevClass, ov_ints_floats_output => Some not_implemented_2
  | StdDevClass, ov_bands_extent => Some not_implemented_1
  | StdDevClass, ov_bands_output_extent => Some not_implemented_1
  | StdDevClass, ov_block_output => Some not_implemented_1
  | StdDevClass, ov_block_output_extent => Some not_implemented_3
  | LabelerClass, ov_bands_output => None
  | LabelerClass, ov_bands => Some not_implemented_1
  | LabelerClass, ov_ints_floats => Some not_implemented_2
  | LabelerClass, ov_ints_floats_output => Some not_implemented_2
  | LabelerClass, ov_bands_extent => Some not_implemented_1
  | LabelerClass, ov_bands_output_extent => Some not_implemented_1
  | LabelerClass, ov_block_output => Some not_implemented_1
  | LabelerClass, ov_block_output_extent => Some not_implemented_3
  end.

(** [calcImageValueCondition] is inline in all three classes. *)
Definition calcImageValueCondition_body (c : VisitorClass) : Exception := not_implemented_1.

(** The overload a pass calls on its visitor: the state-accumulating one
    for the Accumulator and the Std-Dev pass, the one with an output band
    for the Labeler. *)
Definition usedOverload (c : VisitorClass) : Overload :=
  match c with
  | AccumulatorClass => ov_bands
  | StdDevClass => ov_bands
  | LabelerClass => ov_bands_output
  end.

(** A visitor object. *)
Inductive Visitor (num : Type) {ops : Arith num} :=
| AccumulatorVisitor (this : Accumulator.State num)
| StdDevVisitor (this : StdDevPass.State num)
| LabelerVisitor (ignoreZeros : bool) (this : Labeler.State num).
Arguments AccumulatorVisitor {num ops}.
Arguments StdDevVisitor {num ops}.
Arguments LabelerVisitor {num ops}.

Definition classOf {num} {ops : Arith num} (this : Visitor num) : VisitorClass :=
  match this with
  | AccumulatorVisitor _ => AccumulatorClass
  | StdDevVisitor _ => StdDevClass
  | LabelerVisitor _ _ => LabelerClass
  end.

Section Overloads.
Context {num : Type} {ops : Arith num} {metric : Metric num}.

(** The out-of-line body of a visitor, for the arguments of its overload. *)
Definition outOfLineBody (this : Visitor num) (args : CallArgs num)
    : Outcome (Visitor num * CallArgs num) :=
  match this, args with
  | AccumulatorVisitor st, Bands bandValues numBands =>
      mapOutcome (λ st', (AccumulatorVisitor st', args))
        (Accumulator.calcImageValue st bandValues numBands)
  | StdDevVisitor st, Bands bandValues numBands =>
      mapOutcome (λ st', (StdDevVisitor st', args))
        (StdDevPass.calcImageValue st bandValues numBands)
  | LabelerVisitor ignoreZeros st, BandsOutput bandValues numBands output =>
      mapOutcome (λ out, (this, BandsOutput bandValues numBands out))
        (Labeler.calcImageValue ignoreZeros st bandValues numBands output)
  | _, _ => Undefined
  end.

(** A call of [calcImageValue] on a visitor: overload resolution by the
    arguments, virtual dispatch by the class of the object.  The outcome
    holds the object and the argument buffers as the call leaves them. *)
Definition callCalcImageValue (this : Visitor num) (args : CallArgs num)
    : Outcome (Visitor num * CallArgs num) :=
  match inlineBody (classOf this) (overloadOf args) with
  | Some e => Thrown e (this, args)
  | None => outOfLineBody this args
  end.

End Overloads.


(** ** The classifier: [RSGISISODATAClassifier] *)
Module RSGISISODATAClassifier.

(** Of the bodies of the class, which are not among the sources, the merge
    of [calcClusterCentres] is modelled. *)

Section Merge.
Context {num : Type} {ops : Arith num} {metric : Metric num}.

(** Modelled from the spec: the merge of [calcClusterCentres] is missing.
    Two centroids qualify when the Euclidean distance between their means
    is below [minDistanceBetweenCentres]. *)
Definition tooClose (minDistanceBetweenCentres : num) (a b : ClusterCentreISO num) : bool :=
  (euclideanDistance (mean a) (mean b) <? minDistanceBetweenCentres)%num.

(** Modelled from the spec: the population-weighted combination of two
    numbers. *)
Definition weighted (na nb : nat) (x y : num) : num :=
  ((of_int (Z.of_nat na) * x + of_int (Z.of_nat nb) * y) / of_int (Z.of_nat (na + nb)))%num.

(** Modelled from the spec: the merged centroid has the population-weighted
    combination of the two means and standard deviations, and the two
    populations together.  It takes the place and the ID of the first of
    the pair, on which the design is silent. *)
Definition mergePair (a b : ClusterCentreISO num) : ClusterCentreISO num :=
  {| clusterID := clusterID a;
     mean := zip_with (weighted (population a) (population b)) (mean a) (mean b);
     stdDev := zip_with (weighted (population a) (population b)) (stdDev a) (stdDev b);
     population := population a + population b |}.

(** Modelled from the spec: the pairwise check in store order; the first
    centroid after [a] that qualifies with it, and the others. *)
Fixpoint findPartner (thr : num) (a : ClusterCentreISO num) (rest : list (ClusterCentreISO num))
    : option (ClusterCentreISO num * list (ClusterCentreISO num)) :=
  match rest with
  | [] => None
  | b :: rest' =>
      if tooClose thr a b then Some (b, rest')
      else
        match findPartner thr a rest' with
        | Some (p, others) => Some (p, b :: others)
        | None => None
        end
  end.

(** Modelled from the spec: one merge; the first pair that qualifies, in
    store order, is replaced by its combination; [None] when no pair
    qualifies. *)
Fixpoint mergeOnce (thr : num) (cs : list (ClusterCentreISO num))
    : option (list (ClusterCentreISO num)) :=
  match cs with
  | [] => None
  | a :: rest =>
      match findPartner thr a rest with
      | Some (b, others) => Some (mergePair a b :: others)
      | None =>
          match mergeOnce thr rest with
          | Some rest' => Some (a :: rest')
          | None => None
          end
      end
  end.

(** Modelled from the spec: the pairwise checks are repeated until no pair
    qualifies; [rounds] bounds their number. *)
Fixpoint mergeLoop (thr : num) (rounds : nat) (cs : list (ClusterCentreISO num))
    : list (ClusterCentreISO num) :=
  match rounds with
  | O => cs
  | S rounds' =>
      match mergeOnce thr cs with
      | None => cs
      | Some cs' => mergeLoop thr rounds' cs'
      end
  end.

(** Modelled from the spec: the merge of a centroid set.  Every merge takes
    one centroid away, so there are fewer rounds than centroids. *)
Definition merge (minDistanceBetweenCentres : num) (cs : list (ClusterCentreISO num))
    : list (ClusterCentreISO num) :=
  mergeLoop minDistanceBetweenCentres (length cs) cs.

End Merge.
End RSGISISODATAClassifier.

Module Classifier := RSGISISODATAClassifier.


(** ** Vocabulary of the ISODATA statements *)
Section IsodataVocabulary.
Context {num : Type} {ops : Arith num} {metric : Metric num}.

(** The distances from a pixel vector to the centroids of a store, in
    store order. *)
Definition distances (v : list num) (cs : list (ClusterCentreISO num)) : list num :=
  (λ c, euclideanDistance v (mean c)) <$> cs.

(** [<] orders the numbers of [l]: it is irreflexive and transitive on
    them, and of two numbers in that order any third is above the smaller
    or below the larger.  This is what fails when one of them is not a
    number. *)
Definition orderedBy (l : list num) : Prop :=
  (∀ x, x ∈ l → (x <? x)%num = false)
  ∧ (∀ x y z, x ∈ l → y ∈ l → z ∈ l →
       (x <? y)%num = true → (y <? z)%num = true → (x <? z)%num = true)
  ∧ (∀ x y z, x ∈ l → y ∈ l → z ∈ l →
       (x <? y)%num = true → (x <? z)%num = true ∨ (z <? y)%num = true).

(** The centroid at index [r] of the store is nearest to [v], and the
    first of those that are. *)
Definition firstNearest (v : list num) (cs : list (ClusterCentreISO num)) (r : nat) : Prop :=
  ∃ c, cs !! r = Some c
    ∧ (∀ j c', cs !! j = Some c' →
         (euclideanDistance v (mean c') <? euclideanDistance v (mean c))%num = false)
    ∧ (∀ j c', j < r → cs !! j = Some c' →
         (euclideanDistance v (mean c) <? euclideanDistance v (mean c'))%num = true).

(** The cluster IDs grow along the store. *)
Definition idsAscend (cs : list (ClusterCentreISO num)) : Prop :=
  ∀ i j ci cj, i < j → cs !! i = Some ci → cs !! j = Some cj → clusterID ci < clusterID cj.


(** What a pass may change of an Accumulator: the two vectors of pointers
    and the number of objects are as before, and so is every object that
    no pointer of [newClusterCentres] points to. *)
Definition writtenInWorkingSet (this this' : Accumulator.State num) : Prop :=
  Accumulator.clusterCentres this' = Accumulator.clusterCentres this
  ∧ Accumulator.newClusterCentres this' = Accumulator.newClusterCentres this
  ∧ length (Accumulator.objects this') = length (Accumulator.objects this)
  ∧ ∀ p, p ∉ Accumulator.newClusterCentres this →
      Accumulator.objects this' !! p = Accumulator.objects this !! p.

End IsodataVocabulary.

Section MergeVocabulary.
Context {num : Type} {ops : Arith num} {metric : Metric num}.

(** No two centroids of the store are closer than the threshold. *)
Definition noPairTooClose (thr : num) (cs : list (ClusterCentreISO num)) : Prop :=
  ∀ i j a b, i < j → cs !! i = Some a → cs !! j = Some b → Classifier.tooClose thr a b = false.
End MergeVocabulary.


(** ** Sample calls, in single precision *)

Definition spot_two_bands : Calibration spec_float :=
  SPOTCalibration [ {| SPOT.band := 1; SPOT.gain := of_int 2 |};
                    {| SPOT.band := 3; SPOT.gain := of_int 2 |} ].

(** [gain] is (10 - 2) / (5 - 1) = 2 for both bands. *)
Definition landsat_two_bands : list (Landsat.GainsOffsets spec_float) :=
  [ {| Landsat.band := 1; Landsat.lMax := of_int 10; Landsat.lMin := of_int 2;
       Landsat.qCalMax := of_int 5; Landsat.qCalMin := of_int 1 |};
    {| Landsat.band := 2; Landsat.lMax := of_int 10; Landsat.lMin := of_int 2;
       Landsat.qCalMax := of_int 5; Landsat.qCalMin := of_int 1 |} ].

(** The same, with band numbers that no image of two bands has. *)
Definition landsat_bands_out_of_range : list (Landsat.GainsOffsets spec_float) :=
  [ {| Landsat.band := 7; Landsat.lMax := of_int 10; Landsat.lMin := of_int 2;
       Landsat.qCalMax := of_int 5; Landsat.qCalMin := of_int 1 |};
    {| Landsat.band := 8; Landsat.lMax := of_int 10; Landsat.lMin := of_int 2;
       Landsat.qCalMax := of_int 5; Landsat.qCalMin := of_int 1 |} ].

(** The same, with a second band number that an image of two bands does
    not have. *)
Definition landsat_second_band_out_of_range : list (Landsat.GainsOffsets spec_float) :=
  [ {| Landsat.band := 1; Landsat.lMax := of_int 10; Landsat.lMin := of_int 2;
       Landsat.qCalMax := of_int 5; Landsat.qCalMin := of_int 1 |};
    {| Landsat.band := 3; Landsat.lMax := of_int 10; Landsat.lMin := of_int 2;
       Landsat.qCalMax := of_int 5; Landsat.qCalMin := of_int 1 |} ].

(** One half: [int(0.5)] is 0. *)
Definition one_half : spec_float := Binary32.make 1 (-1).

Definition worldview2_one_band : list (WV2.GainsOffsets spec_float) :=
  [ {| WV2.band := 1; WV2.calFactor := of_int 3; WV2.bandIntegrate := of_int 7 |} ].

Definition quickbird8_one_band : list (QB8.GainsOffsets spec_float) :=
  [ {| QB8.band := 1; QB8.calFactor := of_int 1; QB8.k := of_int 5;
       QB8.bandIntegrate := of_int 3 |} ].

(** A configuration of powers of two, on which no operation rounds. *)
Definition quickbird8_power_of_two : list (QB8.GainsOffsets spec_float) :=
  [ {| QB8.band := 1; QB8.calFactor := of_int 2; QB8.k := of_int 4;
       QB8.bandIntegrate := of_int 8 |} ].

Definition quickbird8_exact : list (QB8.GainsOffsets Qc) :=
  [ {| QB8.band := 1; QB8.calFactor := of_int 1; QB8.k := of_int 5;
       QB8.bandIntegrate := of_int 3 |} ].

(** Three centroids in two bands; the pixel (3, 4) is at distance 5 from
    the first and at distance 4 from both the second and the third. *)
Definition three_centres : list (ClusterCentreISO spec_float) :=
  [ {| clusterID := 1; mean := [of_int 0; of_int 0]; stdDev := [fzero; fzero]; population := 0 |};
    {| clusterID := 2; mean := [of_int 3; of_int 0]; stdDev := [fzero; fzero]; population := 0 |};
    {| clusterID := 3; mean := [of_int 3; of_int 8]; stdDev := [fzero; fzero]; population := 0 |} ].

(** The working set before a pass: nothing accumulated yet. *)
Definition working_set_at_start : list (ClusterCentreISO spec_float) :=
  (λ c, {| clusterID := clusterID c; mean := [fzero; fzero]; stdDev := [fzero; fzero];
           population := 0 |}) <$> three_centres.

(** The Accumulator before a pass: six centroid objects, the published
    ones at 0, 1 and 2, the working ones at 3, 4 and 5. *)
Definition accumulator_at_start : Accumulator.State spec_float :=
  {| Accumulator.objects := three_centres ++ working_set_at_start;
     Accumulator.clusterCentres := [0; 1; 2];
     Accumulator.newClusterCentres := [3; 4; 5];
     Accumulator.numImageBands := 2;
     Accumulator.sumDist := to_double fzero;
     Accumulator.numVals := 0 |}.

(** An Accumulator whose working set is the published set itself: both
    vectors hold the pointers 0, 1 and 2. *)
Definition accumulator_sharing : Accumulator.State spec_float :=
  {| Accumulator.objects := three_centres;
     Accumulator.clusterCentres := [0; 1; 2];
     Accumulator.newClusterCentres := [0; 1; 2];
     Accumulator.numImageBands := 2;
     Accumulator.sumDist := to_double fzero;
     Accumulator.numVals := 0 |}.

Definition labeler_at_start : Labeler.State spec_float :=
  {| Labeler.clusterCentres := three_centres |}.

(** Three centroids with populations 1, 3 and 2; the first two are 4
    apart, the third is far from both. *)
Definition centres_to_merge : list (ClusterCentreISO spec_float) :=
  [ {| clusterID := 1; mean := [of_int 0; of_int 0]; stdDev := [of_int 1; of_int 1];
       population := 1 |};
    {| clusterID := 2; mean := [of_int 4; of_int 0]; stdDev := [of_int 1; of_int 5];
       population := 3 |};
    {| clusterID := 3; mean := [of_int 40; of_int 40]; stdDev := [of_int 2; of_int 2];
       population := 2 |} ].


(** ** Further vocabulary and sample calls *)
Section FurtherVocabulary.
Context {num : Type} {ops : Arith num}.

(** The Landsat entry with the fields of an IRS entry. *)
Definition IRS_as_Landsat (g : IRS.GainsOffsets num) : Landsat.GainsOffsets num :=
  {| Landsat.band := IRS.band g;
     Landsat.lMax := IRS.lMax g;
     Landsat.lMin := IRS.lMin g;
     Landsat.qCalMax := IRS.qCalMax g;
     Landsat.qCalMin := IRS.qCalMin g |}.
End FurtherVocabulary.

(** A float that is a number of finite size. *)
Definition finiteFloat (x : spec_float) : bool :=
  match x with
  | S754_zero _ | S754_finite _ _ _ => true
  | S754_infinity _ | S754_nan => false
  end.

Definition zeroFloat (x : spec_float) : bool :=
  match x with
  | S754_zero _ => true
  | _ => false
  end.

Definition ikonos_two_bands : Calibration spec_float :=
  IkonosCalibration
    [ {| Ikonos.band := 1; Ikonos.calCoef := of_int 5; Ikonos.bandwidth := of_int 2 |};
      {| Ikonos.band := 2; Ikonos.calCoef := of_int 4; Ikonos.bandwidth := of_int 5 |} ].

Definition aster_two_bands : list (ASTER.GainsOffsets spec_float) :=
  [ {| ASTER.band := 1; ASTER.unitConCoef := of_int 3 |};
    {| ASTER.band := 2; ASTER.unitConCoef := of_int 2 |} ].

Definition irs_two_bands : list (IRS.GainsOffsets spec_float) :=
  [ {| IRS.band := 1; IRS.lMax := of_int 10; IRS.lMin := of_int 2;
       IRS.qCalMax := of_int 5; IRS.qCalMin := of_int 1 |};
    {| IRS.band := 2; IRS.lMax := of_int 10; IRS.lMin := of_int 2;
       IRS.qCalMax := of_int 5; IRS.qCalMin := of_int 1 |} ].

(** An IRS entry whose gain and offset are fractions:
    [lMax] is 20892 * 2^-10 and [lMin] is -437 * 2^-4. *)
Definition irs_fractional_gain : IRS.GainsOffsets spec_float :=
  {| IRS.band := 1; IRS.lMax := Binary32.make 20892 (-10);
     IRS.lMin := Binary32.make (-437) (-4);
     IRS.qCalMax := of_int 454; IRS.qCalMin := of_int 0 |}.

(** A SPOT configuration whose second gain is zero. *)
Definition spot_zero_gain : list (SPOT.GainsOffsets spec_float) :=
  [ {| SPOT.band := 1; SPOT.gain := of_int 2 |};
    {| SPOT.band := 2; SPOT.gain := fzero |} ].

(** An Ikonos configuration whose first [calCoef] is zero. *)
Definition ikonos_zero_coefficient : list (Ikonos.GainsOffsets spec_float) :=
  [ {| Ikonos.band := 1; Ikonos.calCoef := fzero; Ikonos.bandwidth := of_int 2 |} ].

(** An IRS configuration with [qCalMax = qCalMin] in its only entry. *)
Definition irs_empty_range : list (IRS.GainsOffsets spec_float) :=
  [ {| IRS.band := 1; IRS.lMax := of_int 10; IRS.lMin := of_int 2;
       IRS.qCalMax := of_int 5; IRS.qCalMin := of_int 5 |} ].

(** * Properties *)

(** ** The checked loop *)
Section BandLoopFacts.
Context {num G : Type} (band : G → Z) (value : G → num → num).

Lemma bandLoop_rel {G' : Type} (band' : G' → Z) (value' : G' → num → num)
    (R : G → G' → Prop) (numBands : Z) :
  (∀ g g', R g g' →
     (band g >? numBands)%Z = (band' g' >? numBands)%Z ∧ ∀ v, value g v = value' g' v) →
  ∀ radGainOff radGainOff', Forall2 R radGainOff radGainOff' →
  ∀ n i bandValues output,
    bandLoop band value n i radGainOff bandValues numBands output
    = bandLoop band' value' n i radGainOff' bandValues numBands output.
Proof.
  intros HR gs gs' Hgs n.
  induction n as [|n IH]; intros i bv out; simpl; [done|].
  destruct (gs !! i) as [g|] eqn:Eg.
  - destruct (Forall2_lookup_l _ _ _ _ _ Hgs Eg) as (g' & Eg' & Hr).
    rewrite Eg'. destruct (HR _ _ Hr) as [Hb Hv]. rewrite <- Hb.
    destruct (band g >? numBands)%Z; [done|].
    destruct (bv !! i) as [v|]; [|done].
    rewrite <- Hv. case_decide; [apply IH | done].
  - assert (gs' !! i = None) as ->; [|done].
    apply lookup_ge_None. apply lookup_ge_None in Eg.
    by rewrite <- (Forall2_length _ _ _ Hgs).
Qed.

Lemma calibratedBetween_refl i gs bv (out : list num) :
  calibratedBetween value i i gs bv out out.
Proof. split; [done|]. split; [done|]. intros k Hk. lia. Qed.

Lemma calibratedBetween_step i j gs bv (out out' : list num) g v :
  i < j → i < length out → gs !! i = Some g → bv !! i = Some v →
  calibratedBetween value (S i) j gs bv (<[i := value g v]> out) out' →
  calibratedBetween value i j gs bv out out'.
Proof.
  intros Hij Hi Eg Ev (Hlen & Hsame & Hcal).
  rewrite length_insert in Hlen. split; [done|]. split.
  - intros k Hk. rewrite Hsame by lia. apply list_lookup_insert_ne. lia.
  - intros k Hk. destruct (decide (k = i)) as [->|Hne].
    + exists g, v. repeat split; [done..|].
      rewrite Hsame by lia. by apply list_lookup_insert_eq.
    + apply Hcal. lia.
Qed.

(** Every outcome of the loop, told by what it stands for. *)
Lemma bandLoop_spec n : ∀ i gs bv numBands out,
  match bandLoop band value n i gs bv numBands out with
  | Returned out' =>
      bandsWithin band i (i + n) gs numBands
      ∧ calibratedBetween value i (i + n) gs bv out out'
  | Thrown e out' =>
      e = band_not_within
      ∧ ∃ j g, i ≤ j < i + n ∧ gs !! j = Some g ∧ (band g > numBands)%Z
               ∧ bandsWithin band i j gs numBands
               ∧ calibratedBetween value i j gs bv out out'
  | Undefined =>
      ∃ j out', i ≤ j < i + n
               ∧ bandsWithin band i j gs numBands
               ∧ calibratedBetween value i j gs bv out out'
               ∧ accessOutside band j gs bv numBands out'
  end.
Proof.
  induction n as [|n IH]; intros i gs bv nb out; simpl.
  { split; [intros k Hk; lia|]. replace (i + 0) with i by lia.
    apply calibratedBetween_refl. }
  destruct (gs !! i) as [g|] eqn:Eg.
  2:{ exists i, out. split; [lia|]. split; [intros k Hk; lia|].
      split; [apply calibratedBetween_refl|]. by left. }
  destruct (band g >? nb)%Z eqn:Eb.
  { split; [done|]. exists i, g. split; [lia|]. split; [done|]. split; [lia|].
    split; [intros k Hk; lia|]. apply calibratedBetween_refl. }
  assert (band g ≤ nb)%Z as Hle by lia.
  destruct (bv !! i) as [v|] eqn:Ev.
  2:{ exists i, out. split; [lia|]. split; [intros k Hk; lia|].
      split; [apply calibratedBetween_refl|]. right. exists g. auto. }
  case_decide as Hi.
  2:{ exists i, out. split; [lia|]. split; [intros k Hk; lia|].
      split; [apply calibratedBetween_refl|]. right. exists g.
      split; [done|]. split; [done|]. right. lia. }
  assert (∀ j, S i ≤ j → bandsWithin band (S i) j gs nb → bandsWithin band i j gs nb) as Hw.
  { intros j Hj Hin k Hk. destruct (decide (k = i)) as [->|]; [eauto|]. apply Hin. lia. }
  specialize (IH (S i) gs bv nb (<[i := value g v]> out)).
  destruct (bandLoop band value n (S i) gs bv nb (<[i := value g v]> out)) as [out'|e out'|].
  - destruct IH as [Hin Hcal]. replace (i + S n) with (S i + n) by lia.
    split; [apply Hw; [lia|done]|]. eapply calibratedBetween_step; eauto. lia.
  - destruct IH as (-> & j & g' & Hj & Eg' & Hb' & Hin & Hcal).
    split; [done|]. exists j, g'. split; [lia|]. split; [done|]. split; [done|].
    split; [apply Hw; [lia|done]|]. eapply calibratedBetween_step; eauto. lia.
  - destruct IH as (j & out' & Hj & Hin & Hcal & Hacc).
    exists j, out'. split; [lia|]. split; [apply Hw; [lia|done]|].
    split; [eapply calibratedBetween_step; eauto; lia|done].
Qed.

End BandLoopFacts.

Section BandLoopUse.
Context {num G : Type} (band : G → Z) (value : G → num → num).

(** With every band within range and the buffers long enough the loop
    completes. *)
Lemma bandLoop_returns n i gs bv numBands (out : list num) :
  bandsWithin band i (i + n) gs numBands →
  i + n ≤ length bv ∨ n = 0 → i + n ≤ length out ∨ n = 0 →
  ∃ out', bandLoop band value n i gs bv numBands out = Returned out'
          ∧ calibratedBetween value i (i + n) gs bv out out'.
Proof.
  intros Hin Hbv Hout.
  pose proof (bandLoop_spec band value n i gs bv numBands out) as Hspec.
  destruct (bandLoop band value n i gs bv numBands out) as [out'|e out'|].
  - exists out'. by destruct Hspec.
  - destruct Hspec as (_ & j & g & Hj & Eg & Hb & _).
    destruct (Hin j Hj) as (g' & Eg' & Hle). simplify_eq. lia.
  - destruct Hspec as (j & out' & Hj & _ & (Hlen & _) & Hacc).
    destruct (Hin j Hj) as (g' & Eg' & Hle).
    destruct Hacc as [En|(g & Eg & _ & [En|Hl])]; [congruence| |lia].
    apply lookup_ge_None in En. lia.
Qed.

(** With the first band out of range at [j] the loop throws there. *)
Lemma bandLoop_throws n i j g gs bv numBands (out : list num) :
  i ≤ j < i + n → gs !! j = Some g → (band g > numBands)%Z →
  bandsWithin band i j gs numBands →
  j ≤ length bv → j ≤ length out →
  ∃ out', bandLoop band value n i gs bv numBands out = Thrown band_not_within out'
          ∧ calibratedBetween value i j gs bv out out'.
Proof.
  intros Hj Eg Hb Hin Hbv Hout.
  pose proof (bandLoop_spec band value n i gs bv numBands out) as Hspec.
  destruct (bandLoop band value n i gs bv numBands out) as [out'|e out'|].
  - destruct Hspec as [Hall _]. destruct (Hall j Hj) as (g' & Eg' & Hle).
    simplify_eq. lia.
  - destruct Hspec as (-> & j' & g' & Hj' & Eg' & Hb' & Hin' & Hcal).
    exists out'. split; [done|].
    assert (j' = j) as ->; [|done].
    destruct (decide (j' < j)) as [Hlt|Hge].
    + destruct (Hin j') as (g'' & Eg'' & Hle); [lia|]. simplify_eq. lia.
    + destruct (decide (j < j')) as [Hlt|]; [|lia].
      destruct (Hin' j) as (g'' & Eg'' & Hle); [lia|]. simplify_eq. lia.
  - destruct Hspec as (j' & out' & Hj' & Hin' & (Hlen & _) & Hacc). exfalso.
    destruct (decide (j < j')) as [Hlt|Hge].
    { destruct (Hin' j) as (g'' & Eg'' & Hle); [lia|]. simplify_eq. lia. }
    destruct (decide (j' = j)) as [->|Hne].
    { destruct Hacc as [En|(g' & Eg' & Hle & _)]; simplify_eq. lia. }
    destruct (Hin j') as (g'' & Eg'' & Hle); [lia|].
    destruct Hacc as [En|(g' & Eg' & _ & [En|Hl])]; [congruence| |lia].
    apply lookup_ge_None in En. lia.
Qed.

Lemma perBand_Forall2 (gs : list G) :
  Forall2 (λ g p, p = (band g, value g)) gs (zip (band <$> gs) (value <$> gs)).
Proof. induction gs as [|g gs IH]; simpl; constructor; done. Qed.

Lemma bandLoop_perBand n i (gs : list G) bv numBands (out : list num) :
  bandLoop band value n i gs bv numBands out
  = bandLoop fst snd n i (zip (band <$> gs) (value <$> gs)) bv numBands out.
Proof.
  apply (bandLoop_rel band value fst snd (λ g p, p = (band g, value g))).
  - intros g p ->. done.
  - apply perBand_Forall2.
Qed.

End BandLoopUse.

Section CalibrationFacts.
Context {num : Type} {ops : Arith num}.

Lemma perBand_lookup (c : Calibration num) i b f :
  perBand c !! i = Some (b, f) ↔ bands c !! i = Some b ∧ values c !! i = Some f.
Proof.
  unfold perBand. rewrite lookup_zip_with_Some. split.
  - intros (x & y & [= -> ->] & ? & ?); done.
  - intros [? ?]. eauto.
Qed.

Lemma bands_values_length (c : Calibration num) : length (bands c) = length (values c).
Proof. destruct c; simpl; by rewrite !length_fmap. Qed.

Lemma perBand_lookup_band (c : Calibration num) i b :
  bands c !! i = Some b → ∃ f, perBand c !! i = Some (b, f).
Proof.
  intros Eb. destruct (values c !! i) as [f|] eqn:Ef.
  - exists f. by apply perBand_lookup.
  - apply lookup_ge_None in Ef. apply lookup_lt_Some in Eb.
    rewrite bands_values_length in Eb. lia.
Qed.

Lemma Landsat_notBorder n gs (bv : list num) nb out :
  notBorder bv →
  Landsat.calcImageValue n gs bv nb out
  = bandLoop Landsat.band Landsat.value (loopBound n) 0 gs bv nb out.
Proof.
  intros (v0 & z & E0 & Ez & Hz). unfold Landsat.calcImageValue.
  rewrite E0, Ez. destruct (Z.eqb_spec z 0); done.
Qed.

(** Past the border test every calibration is the checked loop over its
    per-band parameters. *)
Lemma calcImageValue_loop (c : Calibration num) n bv nb out :
  reachesLoop c bv →
  calcImageValue c n bv nb out = bandLoop fst snd (loopBound n) 0 (perBand c) bv nb out.
Proof.
  intros Hr. destruct c as [g|g|g|g|g|g|g|g]; simpl in *;
    [rewrite Landsat_notBorder by done|..]; apply bandLoop_perBand.
Qed.

End CalibrationFacts.

(** ** Band numbers out of range *)
Section BandRange.
Context {num : Type} {ops : Arith num}.

(** C1, as the code has it.  When the call reaches the checked loop (any
    call but that of a Landsat border pixel) and the first configured band
    that exceeds [numBands] is that of entry [j], the call throws the band
    range exception; by then the entries before [j] hold their calibrated
    values, and the entries from [j] on are as they were. *)
Theorem band_range_throw_after_earlier_writes (c : Calibration num) numOutBands
    bandValues numBands output j b :
  reachesLoop c bandValues →
  j < loopBound numOutBands →
  bands c !! j = Some b → (b > numBands)%Z →
  (∀ i b', i < j → bands c !! i = Some b' → (b' ≤ numBands)%Z) →
  j ≤ length bandValues → j ≤ length output →
  ∃ output',
    calcImageValue c numOutBands bandValues numBands output
      = Thrown band_not_within output'
    ∧ length output' = length output
    ∧ (∀ i, j ≤ i → output' !! i = output !! i)
    ∧ (∀ i f v, i < j → values c !! i = Some f → bandValues !! i = Some v →
         output' !! i = Some (f v)).
Proof.
  intros Hr Hj Eb Hb Hfirst Hbv Hout.
  rewrite calcImageValue_loop by done.
  destruct (perBand_lookup_band c j b Eb) as [f Ef].
  destruct (bandLoop_throws fst snd (loopBound numOutBands) 0 j (b, f)
              (perBand c) bandValues numBands output) as (out' & -> & Hlen & Hsame & Hcal);
    [lia|done|done| |done|done|].
  { intros i Hi.
    assert (i < length (perBand c)) as Hlt.
    { apply lookup_lt_Some in Ef. lia. }
    destruct (lookup_lt_is_Some_2 _ _ Hlt) as [[b' f'] E'].
    exists (b', f'). split; [done|]. apply perBand_lookup in E' as [E' _].
    simpl. eapply Hfirst; [|done]. lia. }
  exists out'. split; [done|]. split; [done|]. split.
  - intros i Hi. apply Hsame. lia.
  - intros i f' v Hi Ef' Ev.
    destruct (Hcal i) as ([b'' f''] & v' & E1 & E2 & ->); [lia|].
    apply perBand_lookup in E1 as [_ E1]. by simplify_eq.
Qed.

End BandRange.

Lemma band_range_throw_after_earlier_writes_witness :
  ∃ output',
    calcImageValue spot_two_bands 2 [of_int 10; of_int 20] 2 [fzero; fzero]
      = Thrown band_not_within output'
    ∧ length output' = length [fzero; fzero : spec_float]
    ∧ (∀ i, 1 ≤ i → output' !! i = [fzero; fzero] !! i)
    ∧ (∀ i f v, i < 1 → values spot_two_bands !! i = Some f →
         [of_int 10; of_int 20] !! i = Some v → output' !! i = Some (f v)).
Proof.
  apply (band_range_throw_after_earlier_writes spot_two_bands 2
           [of_int 10; of_int 20] 2 [fzero; fzero] 1 3%Z).
  - exact I.
  - vm_compute. lia.
  - reflexivity.
  - lia.
  - intros i b' Hi Eb. destruct i as [|i]; [|lia]. injection Eb as <-. lia.
  - simpl. lia.
  - simpl. lia.
Defined.

(** C1, as it is stated, fails.  In the SPOT call the second configured
    band exceeds the two input bands, and the exception comes after
    [output[0]] has been written with 10 / 2.  In the Landsat call both
    configured bands exceed the two input bands and the pixel is a border
    pixel: no exception comes at all, and both output entries are
    written. *)
Lemma band_range_throw_is_not_before_all_writes :
  ((∃ i b, bands spot_two_bands !! i = Some b ∧ (b > 2)%Z)
   ∧ calcImageValue spot_two_bands 2 [of_int 10; of_int 20] 2 [fzero; fzero]
     = Thrown band_not_within [of_int 5; fzero]
   ∧ [of_int 5; fzero] ≠ [fzero; fzero : spec_float])
  ∧ ((∃ i b, bands (LandsatCalibration landsat_bands_out_of_range) !! i = Some b ∧ (b > 2)%Z)
     ∧ calcImageValue (LandsatCalibration landsat_bands_out_of_range) 2
         [one_half; of_int 4] 2 [of_int 9; of_int 9]
       = Returned [fzero; fzero]).
Proof.
  split.
  - split; [exists 1, 3%Z; split; [reflexivity|lia]|].
    split; [vm_compute; reflexivity|]. vm_compute. discriminate.
  - split; [exists 0, 7%Z; split; [reflexivity|lia]|]. vm_compute. reflexivity.
Qed.

(** ** The Landsat border test *)
Section LandsatBorder.
Context {num : Type} {ops : Arith num}.

Lemma zeroLoop_returns n : ∀ i (out : list num),
  i + n ≤ length out →
  zeroLoop n i out = Returned (take i out ++ replicate n fzero ++ drop (i + n) out).
Proof.
  induction n as [|n IH]; intros i out Hlen; simpl.
  - rewrite Nat.add_0_r, take_drop. done.
  - case_decide; [|lia]. rewrite IH by (rewrite length_insert; lia).
    f_equal. rewrite (take_S_r _ _ fzero) by (apply list_lookup_insert_eq; lia).
    rewrite take_insert_ge by lia. rewrite drop_insert_lt by lia.
    rewrite <- app_assoc. simpl. by replace (S (i + n)) with (i + S n) by lia.
Qed.

(** C2, as the code has it.  The Landsat body takes the pixel for the
    border exactly when [int(bandValues[0])] is 0.  Then it writes 0 to the
    [numOutBands] output entries whatever the configuration and the band
    count are: no band is checked and nothing is calibrated.  Otherwise it
    runs the checked loop, which goes as far as the first entry [j] whose
    configured band exceeds [numBands], where it throws, or to the end when
    there is none; every output entry before [j] holds
    [gain * (bandValues[i] - qCalMin) + lMin], with
    [gain = (lMax - lMin) / (qCalMax - qCalMin)] converted to [double], the
    product and the sum taken in [double] and the sum converted back at the
    store; the entries from [j] on are as they were. *)
Theorem landsat_border_or_gain_formula numOutBands radGainOff bandValues numBands
    output v0 (z : Z) :
  bandValues !! 0 = Some v0 → to_int v0 = Some z →
  loopBound numOutBands ≤ length output →
  (z = 0%Z →
     ∀ radGainOff' numBands',
       Landsat.calcImageValue numOutBands radGainOff' bandValues numBands' output
       = Returned (replicate (loopBound numOutBands) fzero
                   ++ drop (loopBound numOutBands) output))
  ∧ (z ≠ 0%Z →
     loopBound numOutBands ≤ length bandValues →
     loopBound numOutBands ≤ length radGainOff →
     ∃ j output',
       j ≤ loopBound numOutBands
       ∧ (∀ i g, i < j → radGainOff !! i = Some g → (Landsat.band g ≤ numBands)%Z)
       ∧ ((j = loopBound numOutBands
           ∧ Landsat.calcImageValue numOutBands radGainOff bandValues numBands output
             = Returned output')
          ∨ (∃ g, j < loopBound numOutBands
               ∧ radGainOff !! j = Some g ∧ (Landsat.band g > numBands)%Z
               ∧ Landsat.calcImageValue numOutBands radGainOff bandValues numBands output
                 = Thrown band_not_within output'))
       ∧ length output' = length output
       ∧ (∀ i, j ≤ i → output' !! i = output !! i)
       ∧ (∀ i g v, i < j →
            radGainOff !! i = Some g → bandValues !! i = Some v →
            output' !! i
            = Some (of_double
                      (dadd (dmul (to_double ((Landsat.lMax g - Landsat.lMin g)
                                              / (Landsat.qCalMax g - Landsat.qCalMin g))%num)
                                  (to_double (v - Landsat.qCalMin g)%num))
                            (to_double (Landsat.lMin g)))))).
Proof.
  intros E0 Ez Hout. split.
  - intros -> gs' nb'. unfold Landsat.calcImageValue. rewrite E0, Ez. simpl.
    by rewrite zeroLoop_returns by (simpl; lia).
  - intros Hz Hbv Hgs.
    rewrite Landsat_notBorder by (exists v0, z; done).
    pose proof (bandLoop_spec Landsat.band Landsat.value (loopBound numOutBands) 0
                  radGainOff bandValues numBands output) as Hspec.
    destruct (bandLoop Landsat.band Landsat.value (loopBound numOutBands) 0
                radGainOff bandValues numBands output) as [out'|e out'|].
    + destruct Hspec as (Hin & Hlen & Hsame & Hcal).
      exists (loopBound numOutBands), out'. split; [done|]. split.
      { intros i g Hi Eg. destruct (Hin i) as (g' & Eg' & Hle); [lia|]. by simplify_eq. }
      split; [by left|]. split; [done|]. split.
      { intros i Hi. apply Hsame. lia. }
      intros i g v Hi Eg Ev. destruct (Hcal i) as (g' & v' & Eg' & Ev' & ->); [lia|].
      by simplify_eq.
    + destruct Hspec as (-> & j & g & Hj & Eg & Hb & Hin & Hlen & Hsame & Hcal).
      exists j, out'. split; [lia|]. split.
      { intros i g' Hi Eg'. destruct (Hin i) as (g'' & Eg'' & Hle); [lia|]. by simplify_eq. }
      split; [right; exists g; split; [lia|done]|]. split; [done|]. split.
      { intros i Hi. apply Hsame. lia. }
      intros i g' v Hi Eg' Ev. destruct (Hcal i) as (g'' & v' & Eg'' & Ev' & ->); [lia|].
      by simplify_eq.
    + destruct Hspec as (j & out' & Hj & Hin & (Hlen & _) & Hacc). exfalso.
      destruct Hacc as [En|(g & Eg & _ & [En|Hl])].
      * apply lookup_ge_None in En. lia.
      * apply lookup_ge_None in En. lia.
      * lia.
Qed.

End LandsatBorder.

Lemma landsat_border_or_gain_formula_witness :
  Landsat.calcImageValue 2 landsat_bands_out_of_range [one_half; of_int 4] 2
    [of_int 9; of_int 9]
  = Returned [fzero; fzero]
  ∧ ∃ output',
      Landsat.calcImageValue 2 landsat_two_bands [of_int 3; of_int 4] 2
        [of_int 9; of_int 9]
      = Returned output'
      ∧ output' !! 0 = Some (of_int 6) ∧ output' !! 1 = Some (of_int 8).
Proof.
  split.
  - destruct (landsat_border_or_gain_formula 2 landsat_two_bands
                [one_half; of_int 4] 2 [of_int 9; of_int 9] one_half 0%Z) as [Hborder _];
      [reflexivity|reflexivity|apply le_n|].
    apply Hborder. reflexivity.
  - destruct (landsat_border_or_gain_formula 2 landsat_two_bands
                [of_int 3; of_int 4] 2 [of_int 9; of_int 9] (of_int 3) 3%Z) as [_ Hgain];
      [reflexivity|reflexivity|apply le_n|].
    destruct Hgain as (j & out' & _ & _ & [[-> E]|(g & _ & _ & _ & E)] & _ & _ & Hcal).
    + discriminate.
    + apply le_n.
    + apply le_n.
    + exists out'. split; [exact E|]. split.
      * apply (Hcal 0 _ _ (le_S _ _ (le_n 1)) eq_refl eq_refl).
      * apply (Hcal 1 _ _ (le_n 2) eq_refl eq_refl).
    + vm_compute in E. discriminate.
Defined.

(** C2, as it is stated, fails.  The first band value 3 does not truncate
    to 0 and the second configured band exceeds the two input bands: the
    call throws at the second entry, and of the two output entries only the
    first holds the value of the gain formula, 2 * (3 - 1) + 2; the second
    is the 9 it was, not the 2 * (4 - 1) + 2 of the formula. *)
Lemma landsat_gain_formula_stops_at_a_band_out_of_range :
  to_int (of_int 3 : spec_float) = Some 3%Z
  ∧ Landsat.calcImageValue 2 landsat_second_band_out_of_range [of_int 3; of_int 4] 2
      [of_int 9; of_int 9]
    = Thrown band_not_within [of_int 6; of_int 9]
  ∧ (∃ g, landsat_second_band_out_of_range !! 1 = Some g
          ∧ Landsat.value g (of_int 4) = of_int 8)
  ∧ of_int 9 ≠ (of_int 8 : spec_float).
Proof.
  split; [vm_compute; reflexivity|]. split; [vm_compute; reflexivity|].
  split; [eexists; split; [reflexivity|vm_compute; reflexivity]|].
  vm_compute. discriminate.
Qed.

(** ** WorldView2 and Quickbird 16 bit *)
Section WorldView2.
Context {num : Type} {ops : Arith num}.

(** The two bodies differ in the order of the factors of one product, so
    they agree in every arithmetic whose multiplication commutes. *)
Lemma worldview2_quickbird16_commuting
    (fmul_comm : ∀ x y : num, (x * y)%num = (y * x)%num)
    numOutBands radGainOff bandValues numBands output :
  WV2.calcImageValue numOutBands radGainOff bandValues numBands output
  = QB16.calcImageValue numOutBands (WorldView2_as_Quickbird16 <$> radGainOff)
      bandValues numBands output.
Proof.
  apply (bandLoop_rel WV2.band WV2.value QB16.band QB16.value
           (λ g g', g' = WorldView2_as_Quickbird16 g)).
  - intros g g' ->. split; [done|]. intros v. unfold WV2.value, QB16.value. simpl.
    by rewrite fmul_comm.
  - apply Forall2_fmap_r, Forall_Forall2_diag, Forall_forall. done.
Qed.

End WorldView2.

(** The multiplication of IEEE 754 floats commutes, in every format. *)
Lemma SFmul_comm prec emax x y : SFmul prec emax x y = SFmul prec emax y x.
Proof.
  destruct x as [sx|sx| |sx mx ex], y as [sy|sy| |sy my ey]; simpl;
    rewrite ?(xorb_comm sx sy); try reflexivity.
  by rewrite Pos.mul_comm, Z.add_comm.
Qed.

(** C8.  In single precision, with the same band, [calFactor] and
    [bandIntegrate] in every entry, the WorldView2 and the Quickbird 16 bit
    calibrations end the same way on every input: the same values in the
    same output entries, the exception in the same cases. *)
Theorem worldview2_is_quickbird16 (numOutBands : Z)
    (radGainOff : list (WV2.GainsOffsets spec_float))
    (bandValues : list spec_float) (numBands : Z) (output : list spec_float) :
  WV2.calcImageValue numOutBands radGainOff bandValues numBands output
  = QB16.calcImageValue numOutBands (WorldView2_as_Quickbird16 <$> radGainOff)
      bandValues numBands output.
Proof.
  apply (worldview2_quickbird16_commuting (ops := Binary32.arith)).
  intros x y. apply SFmul_comm.
Qed.

(** Three times five over seven, either way. *)
Example worldview2_and_quickbird16_on_one_band :
  WV2.calcImageValue 1 worldview2_one_band [of_int 5] 1 [fzero]
  = Returned [Binary32.make 15 0 / of_int 7]%num
  ∧ QB16.calcImageValue 1 (WorldView2_as_Quickbird16 <$> worldview2_one_band)
      [of_int 5] 1 [fzero]
    = Returned [Binary32.make 15 0 / of_int 7]%num.
Proof. split; vm_compute; reflexivity. Qed.

(** ** Quickbird 8 bit and Quickbird 16 bit *)
Section Quickbird.
Context {num : Type} {ops : Arith num}.

(** How the loop ends depends on the band numbers and the buffer lengths,
    not on the arithmetic. *)
Lemma bandLoop_kind {G G' : Type} (band : G → Z) (value : G → num → num)
    (band' : G' → Z) (value' : G' → num → num) (R : G → G' → Prop) (numBands : Z) :
  (∀ g g', R g g' → (band g >? numBands)%Z = (band' g' >? numBands)%Z) →
  ∀ gs gs', Forall2 R gs gs' →
  ∀ n i bv (out out' : list num), length out = length out' →
    outcomeKind (bandLoop band value n i gs bv numBands out)
    = outcomeKind (bandLoop band' value' n i gs' bv numBands out').
Proof.
  intros HR gs gs' Hgs n.
  induction n as [|n IH]; intros i bv out out' Hlen; simpl; [done|].
  destruct (gs !! i) as [g|] eqn:Eg.
  - destruct (Forall2_lookup_l _ _ _ _ _ Hgs Eg) as (g' & -> & Hr).
    rewrite <- (HR _ _ Hr). destruct (band g >? numBands)%Z; [done|].
    destruct (bv !! i) as [v|]; [|done]. rewrite <- Hlen.
    case_decide; [|done]. apply IH. by rewrite !length_insert.
  - assert (gs' !! i = None) as ->; [|done].
    apply lookup_ge_None. apply lookup_ge_None in Eg.
    by rewrite <- (Forall2_length _ _ _ Hgs).
Qed.

(** C9, as the code has it.  With the same band, [calFactor] and
    [bandIntegrate] in every entry the two Quickbird calibrations end the
    same way, and where they return, the 16 bit output is
    [(bandValues[i] * calFactor) / bandIntegrate] and the 8 bit output is
    [(bandValues[i] * calFactor * k) / bandIntegrate]: the same numerator,
    times [k], divided afterwards.  So the 8 bit output is [k] times the
    16 bit output exactly for the entries at which the arithmetic lets the
    scaling move past the division. *)
Theorem quickbird8_scales_quickbird16
    numOutBands radGainOff bandValues numBands output :
  let r8 := QB8.calcImageValue numOutBands radGainOff bandValues numBands output in
  let r16 := QB16.calcImageValue numOutBands (Quickbird8_as_Quickbird16 <$> radGainOff)
               bandValues numBands output in
  outcomeKind r8 = outcomeKind r16
  ∧ ∀ output8 output16, r8 = Returned output8 → r16 = Returned output16 →
      ∀ i g v, i < loopBound numOutBands →
        radGainOff !! i = Some g → bandValues !! i = Some v →
        output16 !! i = Some (v * QB8.calFactor g / QB8.bandIntegrate g)%num
        ∧ output8 !! i = Some (v * QB8.calFactor g * QB8.k g / QB8.bandIntegrate g)%num
        ∧ ((∃ y, output16 !! i = Some y ∧ output8 !! i = Some (QB8.k g * y)%num)
           ↔ (v * QB8.calFactor g * QB8.k g / QB8.bandIntegrate g
              = QB8.k g * (v * QB8.calFactor g / QB8.bandIntegrate g))%num).
Proof.
  intros r8 r16. split.
  - apply (bandLoop_kind QB8.band QB8.value QB16.band QB16.value
             (λ g g', g' = Quickbird8_as_Quickbird16 g)); [by intros g g' ->| |done].
    apply Forall2_fmap_r, Forall_Forall2_diag, Forall_forall. done.
  - intros out8 out16 E8 E16 i g v Hi Eg Ev.
    pose proof (bandLoop_spec QB8.band QB8.value (loopBound numOutBands) 0
                  radGainOff bandValues numBands output) as H8.
    pose proof (bandLoop_spec QB16.band QB16.value (loopBound numOutBands) 0
                  (Quickbird8_as_Quickbird16 <$> radGainOff) bandValues numBands output) as H16.
    unfold r8, QB8.calcImageValue in E8. unfold r16, QB16.calcImageValue in E16.
    rewrite E8 in H8. rewrite E16 in H16.
    destruct H8 as (_ & _ & _ & Hcal8). destruct H16 as (_ & _ & _ & Hcal16).
    destruct (Hcal8 i) as (g8 & v8 & Eg8 & Ev8 & E8'); [lia|].
    destruct (Hcal16 i) as (g16 & v16 & Eg16 & Ev16 & E16'); [lia|].
    rewrite list_lookup_fmap, Eg8 in Eg16. simplify_eq. simpl in *. simplify_eq.
    rewrite E8', E16'. unfold QB8.value, QB16.value. simpl.
    split; [done|]. split; [done|]. split.
    + intros (y & [= <-] & [= E]). done.
    + intros E. eexists. split; [done|]. by rewrite E.
Qed.

End Quickbird.

Lemma exact_scaling (x k d : Qc) : (x * k / d)%num = (k * (x / d))%num.
Proof. simpl. unfold Qcdiv. ring. Qed.

(** In single precision, band value 3, [calFactor] 2, [k] 4 and
    [bandIntegrate] 8: the 16 bit output is 6/8, the 8 bit output is 24/8,
    which is 4 times 6/8.  In exact arithmetic, band value 1, [calFactor]
    1, [k] 5 and [bandIntegrate] 3: the outputs are 1/3 and 5/3. *)
Lemma quickbird8_scales_quickbird16_witness :
  (QB16.calcImageValue 1 (Quickbird8_as_Quickbird16 <$> quickbird8_power_of_two)
     [of_int 3] 1 [fzero]
   = Returned [Binary32.make 3 (-2)]
   ∧ QB8.calcImageValue 1 quickbird8_power_of_two [of_int 3] 1 [fzero]
     = Returned [of_int 4 * Binary32.make 3 (-2)]%num)
  ∧ (∃ y, QB16.calcImageValue 1 (Quickbird8_as_Quickbird16 <$> quickbird8_exact)
            [of_int 1] 1 [fzero] = Returned [y]
          ∧ QB8.calcImageValue 1 quickbird8_exact [of_int 1] 1 [fzero]
            = Returned [of_int 5 * y]%num).
Proof.
  split.
  - destruct (quickbird8_scales_quickbird16 (ops := Binary32.arith) 1
                quickbird8_power_of_two [of_int 3] 1 [fzero]) as [_ H].
    destruct (H [of_int 3] [Binary32.make 3 (-2)]) with
      (i := 0) (v := of_int 3 : spec_float)
      (g := {| QB8.band := 1%Z; QB8.calFactor := of_int 2 : spec_float; QB8.k := of_int 4;
               QB8.bandIntegrate := of_int 8 |})
      as (E16 & E8 & Hiff);
      [vm_compute; reflexivity|vm_compute; reflexivity|vm_compute; lia
      |reflexivity|reflexivity|].
    destruct Hiff as [_ Hk]. destruct Hk as (y & Ey & Ek); [vm_compute; reflexivity|].
    split; [reflexivity|]. vm_compute. reflexivity.
  - destruct (quickbird8_scales_quickbird16 (ops := Exact.arith) 1
                quickbird8_exact [of_int 1] 1 [fzero]) as [_ H].
    destruct (H [(of_int 1 * of_int 1 * of_int 5 / of_int 3)%num]
                [(of_int 1 * of_int 1 / of_int 3)%num]) with
      (i := 0) (v := of_int 1 : Qc)
      (g := {| QB8.band := 1%Z; QB8.calFactor := of_int 1 : Qc; QB8.k := of_int 5;
               QB8.bandIntegrate := of_int 3 |})
      as (E16 & E8 & Hiff);
      [reflexivity|reflexivity|vm_compute; lia|reflexivity|reflexivity|].
    destruct Hiff as [_ Hk]. destruct Hk as (y & Ey & Ek); [apply exact_scaling|].
    assert (Some (of_int 1 * of_int 1 / of_int 3)%num = Some y) as Ey' by exact Ey.
    assert (Some (of_int 1 * of_int 1 * of_int 5 / of_int 3)%num = Some (of_int 5 * y)%num)
      as Ek' by exact Ek.
    exists y. split.
    + change (Returned [(of_int 1 * of_int 1 / of_int 3)%num] = Returned [y]). congruence.
    + change (Returned [(of_int 1 * of_int 1 * of_int 5 / of_int 3)%num]
              = Returned [(of_int 5 * y)%num]). congruence.
Defined.

(** C9, as it is stated, fails in single precision.  With
    [bandValues[0] = 1], [calFactor = 1], [k = 5] and [bandIntegrate = 3] the
    8 bit output is the float nearest to 5/3, which is
    13981013 * 2^-23; the 16 bit output is the float nearest to 1/3, which is
    11184811 * 2^-25, and 5 times it rounds to 13981014 * 2^-23. *)
Lemma quickbird8_is_not_k_times_quickbird16 :
  QB8.calcImageValue 1 quickbird8_one_band [of_int 1] 1 [fzero]
  = Returned [S754_finite false 13981013 (-23)]
  ∧ QB16.calcImageValue 1 (Quickbird8_as_Quickbird16 <$> quickbird8_one_band)
      [of_int 1] 1 [fzero]
    = Returned [S754_finite false 11184811 (-25)]
  ∧ (of_int 5 * S754_finite false 11184811 (-25))%num = S754_finite false 13981014 (-23)
  ∧ S754_finite false 13981013 (-23) ≠ S754_finite false 13981014 (-23).
Proof.
  split; [vm_compute; reflexivity|]. split; [vm_compute; reflexivity|].
  split; [vm_compute; reflexivity|]. discriminate.
Qed.

(** ** The configured band number *)
Section BandNumber.
Context {num : Type} {ops : Arith num}.

Lemma bandLoop_bands_irrelevant {G G' : Type} (band : G → Z) (value : G → num → num)
    (band' : G' → Z) (value' : G' → num → num) gs gs' (numBands : Z) :
  value <$> gs = value' <$> gs' →
  Forall (λ b, (b ≤ numBands)%Z) (band <$> gs) →
  Forall (λ b, (b ≤ numBands)%Z) (band' <$> gs') →
  ∀ n i bv out,
    bandLoop band value n i gs bv numBands out
    = bandLoop band' value' n i gs' bv numBands out.
Proof.
  intros Hv Hb Hb'.
  apply (bandLoop_rel band value band' value'
           (λ g g', ((band g ≤ numBands)%Z ∧ (band' g' ≤ numBands)%Z) ∧ value g = value' g')).
  - intros g g' [[Hg Hg'] Hgg]. split; [lia|]. intros v. by rewrite Hgg.
  - apply Forall2_same_length_lookup. split.
    { by rewrite <- (length_fmap value gs), Hv, length_fmap. }
    intros i g g' Eg Eg'. split; [split|].
    + rewrite Forall_lookup in Hb. apply (Hb i). by rewrite list_lookup_fmap, Eg.
    + rewrite Forall_lookup in Hb'. apply (Hb' i). by rewrite list_lookup_fmap, Eg'.
    + assert ((value <$> gs) !! i = (value' <$> gs') !! i) as E by (by rewrite Hv).
      rewrite !list_lookup_fmap, Eg, Eg' in E. by injection E.
Qed.

Lemma values_rebrand f (c : Calibration num) : values (rebrand f c) = values c.
Proof.
  destruct c; simpl; apply list_eq; intros i;
    rewrite !list_lookup_fmap, list_lookup_imap; by destruct (_ !! i).
Qed.

Lemma bands_rebrand f (c : Calibration num) i :
  bands (rebrand f c) !! i = (λ _, f i) <$> bands c !! i.
Proof.
  destruct c; simpl; rewrite !list_lookup_fmap, list_lookup_imap; by destruct (_ !! i).
Qed.

Lemma rebrand_within f (c : Calibration num) (numBands : Z) :
  (∀ i, i < length (bands c) → (f i ≤ numBands)%Z) →
  Forall (λ b, (b ≤ numBands)%Z) (bands (rebrand f c)).
Proof.
  intros Hf. apply Forall_lookup. intros i b. rewrite bands_rebrand.
  destruct (bands c !! i) as [b'|] eqn:E; [|done]. intros [= <-].
  apply Hf. by eapply lookup_lt_Some.
Qed.

(** C10.  The configured band number only takes part in the range check.
    The value calibrated into output entry [i] is made from [bandValues[i]],
    and setting the band numbers to others that are within range as well
    changes nothing in what the call does. *)
Theorem band_number_is_only_checked (c : Calibration num) (f : nat → Z)
    numOutBands bandValues numBands output :
  Forall (λ b, (b ≤ numBands)%Z) (bands c) →
  (∀ i, i < length (bands c) → (f i ≤ numBands)%Z) →
  calcImageValue (rebrand f c) numOutBands bandValues numBands output
  = calcImageValue c numOutBands bandValues numBands output
  ∧ (reachesLoop c bandValues →
     ∀ output', calcImageValue c numOutBands bandValues numBands output = Returned output' →
       ∀ i g v, i < loopBound numOutBands →
         values c !! i = Some g → bandValues !! i = Some v →
         output' !! i = Some (g v)).
Proof.
  intros Hc Hf. pose proof (rebrand_within f c numBands Hf) as Hc'.
  pose proof (values_rebrand f c) as Hv. split.
  - destruct c as [g|g|g|g|g|g|g|g]; simpl in *;
      [unfold Landsat.calcImageValue;
       destruct (bandValues !! 0) as [v0|]; [|done];
       destruct (to_int v0) as [z|]; [|done];
       destruct (z =? 0)%Z; [done|] | ..];
      by apply bandLoop_bands_irrelevant.
  - intros Hr out' E i g v Hi Eg Ev. rewrite calcImageValue_loop in E by done.
    pose proof (bandLoop_spec fst snd (loopBound numOutBands) 0 (perBand c)
                  bandValues numBands output) as Hspec.
    rewrite E in Hspec. destruct Hspec as (_ & _ & _ & Hcal).
    destruct (Hcal i) as ([b g'] & v' & E1 & E2 & ->); [lia|].
    apply perBand_lookup in E1 as [_ E1]. by simplify_eq.
Qed.

End BandNumber.

Lemma band_number_is_only_checked_witness :
  calcImageValue (rebrand (λ i, 2%Z) (LandsatCalibration landsat_two_bands)) 2
    [of_int 3; of_int 4] 2 [of_int 9; of_int 9]
  = calcImageValue (LandsatCalibration landsat_two_bands) 2
      [of_int 3; of_int 4] 2 [of_int 9; of_int 9]
  ∧ (reachesLoop (LandsatCalibration landsat_two_bands) [of_int 3; of_int 4] →
     ∀ output', calcImageValue (LandsatCalibration landsat_two_bands) 2
                  [of_int 3; of_int 4] 2 [of_int 9; of_int 9] = Returned output' →
       ∀ i g v, i < loopBound 2 →
         values (LandsatCalibration landsat_two_bands) !! i = Some g →
         [of_int 3; of_int 4] !! i = Some v →
         output' !! i = Some (g v)).
Proof.
  apply (band_number_is_only_checked (ops := Binary32.arith)).
  - repeat constructor; vm_compute; discriminate.
  - intros i _. vm_compute. discriminate.
Defined.

(** ** The nearest centroid *)
Section Nearest.
Context {num : Type} {ops : Arith num} {metric : Metric num}.

Lemma orderedBy_asym (l : list num) x y :
  orderedBy l → x ∈ l → y ∈ l → (x <? y)%num = true → (y <? x)%num = false.
Proof.
  intros (Hirr & Htrans & _) Hx Hy Hxy.
  destruct (y <? x)%num eqn:Hyx; [|done].
  rewrite <- (Hirr x Hx). symmetry. by apply (Htrans x y x).
Qed.

Lemma orderedBy_cons x (l : list num) : orderedBy (x :: l) → orderedBy l.
Proof.
  intros (Hirr & Htrans & Hco). split; [|split].
  - intros y Hy. apply Hirr. by right.
  - intros a b c Ha Hb Hc. apply Htrans; by right.
  - intros a b c Ha Hb Hc. apply Hco; by right.
Qed.

Lemma orderedBy_swap x y (l : list num) : orderedBy (x :: y :: l) → orderedBy (y :: x :: l).
Proof.
  assert (∀ a, a ∈ y :: x :: l → a ∈ x :: y :: l) as Hin.
  { intros a. rewrite !elem_of_cons. tauto. }
  intros (Hirr & Htrans & Hco). split; [|split].
  - intros a Ha. apply Hirr; auto.
  - intros a b c Ha Hb Hc. apply Htrans; auto.
  - intros a b c Ha Hb Hc. apply Hco; auto.
Qed.

Lemma elem_of_distances v (cs : list (ClusterCentreISO num)) k c :
  cs !! k = Some c → euclideanDistance v (mean c) ∈ distances v cs.
Proof.
  intros Ek. apply list_elem_of_lookup. exists k.
  unfold distances. by rewrite list_lookup_fmap, Ek.
Qed.

(** The search loop, from a current choice on: either the choice stands,
    nothing later being strictly nearer, or the loop ends on the first of
    the later centroids that are nearest. *)
Lemma nearestFrom_spec v : ∀ (cs : list (ClusterCentreISO num)) i best bestDist,
  orderedBy (bestDist :: distances v cs) →
  let r := nearestFrom v cs i best bestDist in
  (r = (best, bestDist) ∧ ∀ x, x ∈ distances v cs → (x <? bestDist)%num = false)
  ∨ (∃ k c, cs !! k = Some c
       ∧ r = (i + k, euclideanDistance v (mean c))
       ∧ (euclideanDistance v (mean c) <? bestDist)%num = true
       ∧ (∀ x, x ∈ distances v cs → (x <? euclideanDistance v (mean c))%num = false)
       ∧ (∀ j c', j < k → cs !! j = Some c' →
            (euclideanDistance v (mean c) <? euclideanDistance v (mean c'))%num = true)).
Proof.
  induction cs as [|c0 cs IH]; intros i best bestDist Hord; simpl.
  { left. split; [done|]. intros x Hx. by apply elem_of_nil in Hx. }
  set (d0 := euclideanDistance v (mean c0)).
  assert (d0 ∈ bestDist :: d0 :: distances v cs) as Hd0 by (right; left).
  assert (bestDist ∈ bestDist :: d0 :: distances v cs) as Hb by left.
  assert (∀ x, x ∈ distances v cs → x ∈ bestDist :: d0 :: distances v cs) as Hin.
  { intros x Hx. by do 2 right. }
  pose proof (elem_of_distances v cs) as Hdk.
  pose proof Hord as (Hirr & Htrans & Hco).
  destruct (d0 <? bestDist)%num eqn:Hlt.
  - destruct (IH (S i) i d0) as [[-> Hmin]|(k & c & Ek & -> & Hd & Hmin & Hfirst)].
    { by apply orderedBy_cons in Hord. }
    + right. exists 0, c0. split; [done|]. split; [by rewrite Nat.add_0_r|].
      split; [done|]. split.
      * intros x [->|Hx]%elem_of_cons; [by apply Hirr|by apply Hmin].
      * intros j c' Hj. lia.
    + right. exists (S k), c. split; [done|].
      split; [f_equal; lia|]. pose proof (Hdk _ _ Ek) as Hd'.
      split; [apply (Htrans _ d0); auto|]. split.
      * intros x [->|Hx]%elem_of_cons; [|by apply Hmin].
        apply (orderedBy_asym _ _ _ Hord); auto.
      * intros [|j] c' Hj Ej; [by injection Ej as <-|]. apply (Hfirst j); [lia|done].
  - destruct (IH (S i) best bestDist) as [[-> Hmin]|(k & c & Ek & -> & Hd & Hmin & Hfirst)].
    { by apply orderedBy_swap, orderedBy_cons in Hord. }
    + left. split; [done|].
      intros x [->|Hx]%elem_of_cons; [done|by apply Hmin].
    + right. exists (S k), c. split; [done|].
      split; [f_equal; lia|]. pose proof (Hdk _ _ Ek) as Hd'.
      split; [done|]. split.
      * intros x [->|Hx]%elem_of_cons; [|by apply Hmin].
        destruct (d0 <? euclideanDistance v (mean c))%num eqn:E; [|done].
        rewrite <- Hlt. symmetry. apply (Htrans _ (euclideanDistance v (mean c))); auto.
      * intros [|j] c' Hj Ej; [|apply (Hfirst j); [lia|done]].
        injection Ej as <-.
        destruct (Hco (euclideanDistance v (mean c)) bestDist d0) as [?|?]; auto.
        fold d0. congruence.
Qed.

Lemma nearestCentre_spec v (cs : list (ClusterCentreISO num)) :
  orderedBy (distances v cs) → cs ≠ [] →
  ∃ r c, nearestCentre v cs = Some (r, euclideanDistance v (mean c))
         ∧ cs !! r = Some c ∧ firstNearest v cs r.
Proof.
  intros Hord Hne. destruct cs as [|c0 cs]; [done|]. simpl.
  pose proof Hord as (Hirr & _).
  destruct (nearestFrom_spec v cs 1 0 (euclideanDistance v (mean c0)) Hord)
    as [[-> Hmin]|(k & c & Ek & -> & Hd & Hmin & Hfirst)].
  - exists 0, c0. split; [done|]. split; [done|]. exists c0. split; [done|]. split.
    + intros [|j] c' Ej; simpl in Ej.
      * injection Ej as <-. apply Hirr. left.
      * apply Hmin. by apply (elem_of_distances v cs j).
    + intros j c' Hj. lia.
  - exists (S k), c. split; [done|]. split; [done|]. exists c. split; [done|]. split.
    + intros [|j] c' Ej; simpl in Ej.
      * injection Ej as <-. apply (orderedBy_asym _ _ _ Hord); [| left |done].
        right. by apply (elem_of_distances v cs k).
      * apply Hmin. by apply (elem_of_distances v cs j).
    + intros [|j] c' Hj Ej; simpl in Ej; [by injection Ej as <-|].
      apply (Hfirst j); [lia|done].
Qed.

End Nearest.

Lemma SFltb_key x y :
  Binary32.is_nan x = false → Binary32.is_nan y = false →
  SFltb x y = true ↔ Binary32.keyLt (Binary32.key x) (Binary32.key y).
Proof.
  intros Hx Hy. unfold SFltb, Binary32.keyLt.
  destruct x as [sx|sx| |sx mx ex], y as [sy|sy| |sy my ey]; try discriminate;
    try destruct sx; try destruct sy; simpl; try (split; [discriminate|lia]);
    try (split; [lia|done]); try (split; [done|lia]).
  - change (Pos.compare_cont Eq mx my) with (Pos.compare mx my).
    destruct (Z.compare_spec ex ey); destruct (Pos.compare_spec mx my); simpl;
      split; try discriminate; try done; lia.
  - change (Pos.compare_cont Eq mx my) with (Pos.compare mx my).
    destruct (Z.compare_spec ex ey); destruct (Pos.compare_spec mx my); simpl;
      split; try discriminate; try done; lia.
Qed.

(** Single precision floats that are numbers are ordered by [<]. *)
Lemma binary32_orderedBy (l : list spec_float) :
  Forall (λ x, Binary32.is_nan x = false) l → orderedBy l.
Proof.
  intros Hl. rewrite Forall_forall in Hl.
  assert (∀ x y, x ∈ l → y ∈ l →
            (x <? y)%num = true ↔ Binary32.keyLt (Binary32.key x) (Binary32.key y)) as Hk.
  { intros x y Hx Hy. apply SFltb_key; auto. }
  split; [|split].
  - intros x Hx. destruct (x <? x)%num eqn:E; [|done].
    apply Hk in E; [|done..]. unfold Binary32.keyLt in E. lia.
  - intros x y z Hx Hy Hz Hxy Hyz. apply Hk in Hxy, Hyz; [|done..]. apply Hk; [done..|].
    unfold Binary32.keyLt in *. lia.
  - intros x y z Hx Hy Hz Hxy. apply Hk in Hxy; [|done..]. rewrite !Hk by done.
    unfold Binary32.keyLt in *. lia.
Qed.

(** ** The Accumulator and the Labeler *)
Section Passes.
Context {num : Type} {ops : Arith num} {metric : Metric num}.

(** The two search loops go through the same choices: the cluster ID the
    Labeler keeps is that of the centroid whose index the Accumulator
    keeps. *)
Lemma nearestIDFrom_nearestFrom v (all : list (ClusterCentreISO num)) :
  ∀ cs i best bestDist cb,
    cs = drop i all → all !! best = Some cb →
    ∃ c, all !! (nearestFrom v cs i best bestDist).1 = Some c
         ∧ Labeler.nearestIDFrom v cs (clusterID cb) bestDist = clusterID c.
Proof.
  induction cs as [|c cs IH]; intros i best bestDist cb Hcs Hbest; simpl.
  { by exists cb. }
  assert (all !! i = Some c ∧ cs = drop (S i) all) as [Ei Hcs'].
  { split.
    - rewrite <- (Nat.add_0_r i), <- lookup_drop, <- Hcs. done.
    - replace (S i) with (i + 1) by lia. by rewrite <- drop_drop, <- Hcs. }
  destruct (euclideanDistance v (mean c) <? bestDist)%num; by eapply IH.
Qed.

Lemma nearestID_nearestCentre v (cs : list (ClusterCentreISO num)) r d :
  nearestCentre v cs = Some (r, d) →
  ∃ c, cs !! r = Some c ∧ Labeler.nearestID v cs = Some (clusterID c).
Proof.
  destruct cs as [|c0 cs]; [done|]. simpl. intros [= E].
  destruct (nearestIDFrom_nearestFrom v (c0 :: cs) cs 1 0
              (euclideanDistance v (mean c0)) c0) as (c & Ec & Eid); [done..|].
  rewrite E in Ec. simpl in Ec. exists c. by rewrite Eid.
Qed.

(** C3.  For a pixel that is not a border pixel and a published centroid
    set [C] whose distances to the pixel are ordered, the Accumulator
    accumulates into the working centroid of the index [r] and the Labeler
    writes the cluster ID of the published centroid of the same index [r]:
    the centroid at the minimum Euclidean distance, and of those at that
    distance the first in store order, which is the one with the lowest ID
    when the IDs grow along the store.  The working centroid is the object
    that [newClusterCentres[r]] points to. *)
Theorem accumulator_and_labeler_choose_the_same_centroid
    (acc : Accumulator.State num) (lab : Labeler.State num) (ignoreZeros : bool)
    (v : list num) (numBands : Z) (output : list num) (C : list (ClusterCentreISO num)) :
  isBorderPixel v = false →
  Accumulator.published acc = Some C →
  Labeler.clusterCentres lab = C →
  C ≠ [] →
  orderedBy (distances v C) →
  (Accumulator.numImageBands acc ≤ numBands)%Z →
  output ≠ [] →
  ∃ r c,
    C !! r = Some c
    ∧ firstNearest v C r
    ∧ (idsAscend C →
       ∀ j c', C !! j = Some c' →
         (euclideanDistance v (mean c) <? euclideanDistance v (mean c'))%num = false →
         clusterID c ≤ clusterID c')
    ∧ Accumulator.calcImageValue acc v numBands
      = match Accumulator.newClusterCentres acc !! r with
        | None => Undefined
        | Some p =>
            match Accumulator.objects acc !! p with
            | None => Undefined
            | Some w =>
                Returned
                  {| Accumulator.objects :=
                       <[p := Accumulator.accumulate v w]> (Accumulator.objects acc);
                     Accumulator.clusterCentres := Accumulator.clusterCentres acc;
                     Accumulator.newClusterCentres := Accumulator.newClusterCentres acc;
                     Accumulator.numImageBands := Accumulator.numImageBands acc;
                     Accumulator.sumDist :=
                       dadd (Accumulator.sumDist acc)
                            (to_double (euclideanDistance v (mean c)));
                     Accumulator.numVals :=
                       ((Accumulator.numVals acc + 1) mod ULONG_MODULUS)%Z |}
            end
        end
    ∧ Labeler.calcImageValue ignoreZeros lab v numBands output
      = Returned (<[0 := of_int (Z.of_nat (clusterID c))]> output).
Proof.
  intros Hv Hpub Hsame Hne Hord Hnb Hout.
  destruct (nearestCentre_spec v _ Hord Hne) as (r & c & En & Ec & Hfirst).
  exists r, c. split; [done|]. split; [done|]. split; [|split].
  - intros Hasc j c' Ej Hmin.
    destruct (decide (j < r)) as [Hlt|Hge].
    + destruct Hfirst as (c0 & Ec0 & _ & Hstrict). simplify_eq.
      rewrite (Hstrict j c' Hlt Ej) in Hmin. done.
    + destruct (decide (j = r)) as [->|Hne']; [by simplify_eq|].
      assert (r < j) as Hlt by lia.
      pose proof (Hasc r j c c' Hlt Ec Ej). lia.
  - unfold Accumulator.calcImageValue. rewrite Hv, Hpub, En.
    destruct (Z.gtb_spec (Accumulator.numImageBands acc) numBands); [lia|done].
  - unfold Labeler.calcImageValue. destruct output as [|o output]; [done|].
    destruct (nearestID_nearestCentre v _ _ _ En) as (c' & Ec' & Eid).
    rewrite Hv, andb_false_r, Hsame, Eid. by simplify_eq.
Qed.

End Passes.

(** Of the two centroids at distance 4 the search keeps the first. *)
Example nearest_of_three_centres :
  nearestCentre [of_int 3; of_int 4] three_centres = Some (1, of_int 4).
Proof. vm_compute. reflexivity. Qed.

Lemma accumulator_and_labeler_choose_the_same_centroid_witness :
  ∃ r c,
    three_centres !! r = Some c
    ∧ firstNearest [of_int 3; of_int 4] three_centres r
    ∧ (idsAscend three_centres →
       ∀ j c', three_centres !! j = Some c' →
         (euclideanDistance [of_int 3; of_int 4] (mean c)
          <? euclideanDistance [of_int 3; of_int 4] (mean c'))%num = false →
         clusterID c ≤ clusterID c')
    ∧ Accumulator.calcImageValue accumulator_at_start [of_int 3; of_int 4] 2
      = match Accumulator.newClusterCentres accumulator_at_start !! r with
        | None => Undefined
        | Some p =>
            match Accumulator.objects accumulator_at_start !! p with
            | None => Undefined
            | Some w =>
                Returned
                  {| Accumulator.objects :=
                       <[p := Accumulator.accumulate [of_int 3; of_int 4] w]>
                         (Accumulator.objects accumulator_at_start);
                     Accumulator.clusterCentres :=
                       Accumulator.clusterCentres accumulator_at_start;
                     Accumulator.newClusterCentres :=
                       Accumulator.newClusterCentres accumulator_at_start;
                     Accumulator.numImageBands :=
                       Accumulator.numImageBands accumulator_at_start;
                     Accumulator.sumDist :=
                       dadd (Accumulator.sumDist accumulator_at_start)
                            (to_double (euclideanDistance [of_int 3; of_int 4] (mean c)));
                     Accumulator.numVals :=
                       ((Accumulator.numVals accumulator_at_start + 1) mod ULONG_MODULUS)%Z |}
            end
        end
    ∧ Labeler.calcImageValue false labeler_at_start [of_int 3; of_int 4] 2 [fzero]
      = Returned (<[0 := of_int (Z.of_nat (clusterID c))]> [fzero]).
Proof.
  apply (accumulator_and_labeler_choose_the_same_centroid
           (ops := Binary32.arith) (metric := Binary32.metric)
           accumulator_at_start labeler_at_start false [of_int 3; of_int 4] 2 [fzero]
           three_centres).
  - reflexivity.
  - reflexivity.
  - reflexivity.
  - discriminate.
  - apply binary32_orderedBy. repeat constructor.
  - vm_compute. discriminate.
  - discriminate.
Defined.

(** ** The published set during a pass *)
Section Published.
Context {num : Type} {ops : Arith num} {metric : Metric num}.

Lemma writtenInWorkingSet_refl (this : Accumulator.State num) :
  writtenInWorkingSet this this.
Proof. done. Qed.







End Published.


(** When the two vectors share their objects the published set does not
    stay: the call for the pixel (3, 4) accumulates it into the published
    centroid at (3, 0) itself. *)
Example published_set_is_written_when_shared :
  Accumulator.published accumulator_sharing = Some three_centres
  ∧ ∃ this',
      Accumulator.calcImageValue accumulator_sharing [of_int 3; of_int 4] 2 = Returned this'
      ∧ Accumulator.published this'
        = Some [ {| clusterID := 1; mean := [of_int 0; of_int 0]; stdDev := [fzero; fzero];
                    population := 0 |};
                 {| clusterID := 2; mean := [of_int 6; of_int 4];
                    stdDev := [of_int 9; of_int 16]; population := 1 |};
                 {| clusterID := 3; mean := [of_int 3; of_int 8]; stdDev := [fzero; fzero];
                    population := 0 |} ].
Proof. split; [reflexivity|]. eexists. split; [reflexivity|]. vm_compute. reflexivity. Qed.

(** ** The overloads that are not implemented *)
Section Unused.
Context {num : Type} {ops : Arith num} {metric : Metric num}.

(** C6.  In each of the three ISODATA visitors a call of any overload of
    [calcImageValue] but the one the pass uses throws an
    [RSGISImageCalcException], whatever the arguments and the state of the
    object, and leaves both as they are.  The message is one of three
    spellings of not implemented. *)
Theorem unused_overloads_throw (this : Visitor num) (args : CallArgs num) :
  overloadOf args ≠ usedOverload (classOf this) →
  ∃ what,
    callCalcImageValue this args = Thrown (RSGISImageCalcException what) (this, args)
    ∧ what ∈ ["Not Implemented"; "Not implemented"; "No implemented"]%string.
Proof.
  intros Hunused. unfold callCalcImageValue.
  destruct this as [st|st|iz st], args; simpl in *; try done;
    eexists; (split; [reflexivity|]); rewrite !elem_of_cons; auto.
Qed.

End Unused.

Lemma unused_overloads_throw_witness :
  ∃ what,
    callCalcImageValue (AccumulatorVisitor accumulator_at_start)
      (BandsOutput [of_int 3; of_int 4] 2 [fzero])
    = Thrown (RSGISImageCalcException what)
        (AccumulatorVisitor accumulator_at_start, BandsOutput [of_int 3; of_int 4] 2 [fzero])
    ∧ what ∈ ["Not Implemented"; "Not implemented"; "No implemented"]%string.
Proof.
  apply (unused_overloads_throw (ops := Binary32.arith) (metric := Binary32.metric)).
  simpl. discriminate.
Defined.

(** ** Merging *)
Section Merging.
Context {num : Type} {ops : Arith num} {metric : Metric num}.

Lemma findPartner_Some thr a : ∀ (rest : list (ClusterCentreISO num)) b others,
  Classifier.findPartner thr a rest = Some (b, others) → length rest = S (length others).
Proof.
  induction rest as [|c rest IH]; intros b others; simpl; [done|].
  destruct (Classifier.tooClose thr a c); [by intros [= <- <-]|].
  destruct (Classifier.findPartner thr a rest) as [[p o]|] eqn:E; [|done].
  intros [= <- <-]. simpl. f_equal. by eapply IH.
Qed.

Lemma findPartner_None thr a : ∀ (rest : list (ClusterCentreISO num)),
  Classifier.findPartner thr a rest = None →
  ∀ j b, rest !! j = Some b → Classifier.tooClose thr a b = false.
Proof.
  induction rest as [|c rest IH]; simpl; [done|].
  destruct (Classifier.tooClose thr a c) eqn:Ec; [done|].
  destruct (Classifier.findPartner thr a rest) as [[p o]|]; [done|].
  intros _ [|j] b; simpl; [by intros [= <-]|]. by apply IH.
Qed.

(** A merge takes one centroid away. *)
Lemma mergeOnce_Some thr : ∀ (cs cs' : list (ClusterCentreISO num)),
  Classifier.mergeOnce thr cs = Some cs' → length cs = S (length cs').
Proof.
  induction cs as [|a rest IH]; intros cs'; simpl; [done|].
  destruct (Classifier.findPartner thr a rest) as [[b others]|] eqn:E.
  - intros [= <-]. simpl. f_equal. by eapply findPartner_Some.
  - destruct (Classifier.mergeOnce thr rest) as [rest'|]; [|done].
    intros [= <-]. simpl. f_equal. by apply IH.
Qed.

(** No merge is left exactly when no pair qualifies. *)
Lemma mergeOnce_None thr : ∀ (cs : list (ClusterCentreISO num)),
  Classifier.mergeOnce thr cs = None → noPairTooClose thr cs.
Proof.
  induction cs as [|a rest IH]; simpl; [by intros _ i j a b _ ?|].
  destruct (Classifier.findPartner thr a rest) as [[b others]|] eqn:E; [done|].
  destruct (Classifier.mergeOnce thr rest) as [rest'|] eqn:E'; [done|].
  intros _ [|i] [|j] x y Hij Ex Ey; simpl in *; try lia.
  - injection Ex as <-. by eapply findPartner_None.
  - apply (IH eq_refl i j); [lia|done..].
Qed.

Lemma mergeLoop_settles thr rounds : ∀ (cs : list (ClusterCentreISO num)),
  length cs ≤ rounds → Classifier.mergeOnce thr (Classifier.mergeLoop thr rounds cs) = None.
Proof.
  induction rounds as [|n IH]; intros cs Hlen; simpl.
  - by destruct cs; [|simpl in Hlen; lia].
  - destruct (Classifier.mergeOnce thr cs) as [cs'|] eqn:E; [|done].
    apply IH. apply mergeOnce_Some in E. lia.
Qed.

Lemma mergeLoop_settled thr rounds (cs : list (ClusterCentreISO num)) :
  Classifier.mergeOnce thr cs = None → Classifier.mergeLoop thr rounds cs = cs.
Proof. intros E. destruct rounds; simpl; [done|]. by rewrite E. Qed.

(** C7.  The merge runs until no pair of centroids is closer than the
    threshold, which the rounds it is given suffice for; so a second merge
    with the same threshold finds nothing to do and returns the set the
    first has returned. *)
Theorem merge_is_idempotent (minDistanceBetweenCentres : num)
    (cs : list (ClusterCentreISO num)) :
  Classifier.merge minDistanceBetweenCentres (Classifier.merge minDistanceBetweenCentres cs)
  = Classifier.merge minDistanceBetweenCentres cs
  ∧ noPairTooClose minDistanceBetweenCentres (Classifier.merge minDistanceBetweenCentres cs).
Proof.
  assert (Classifier.mergeOnce minDistanceBetweenCentres
            (Classifier.merge minDistanceBetweenCentres cs) = None) as Hsettled.
  { by apply mergeLoop_settles. }
  split.
  - unfold Classifier.merge at 1. by apply mergeLoop_settled.
  - by apply mergeOnce_None.
Qed.

End Merging.

(** ** Sample runs *)

(** With the threshold 5 the first two centroids merge into one at
    (3, 0) with the population 4, and merging again changes nothing. *)
Example merge_of_three_centres :
  Classifier.merge (of_int 5) centres_to_merge
  = [ {| clusterID := 1; mean := [of_int 3; fzero]; stdDev := [of_int 1; of_int 4];
         population := 4 |};
      {| clusterID := 3; mean := [of_int 40; of_int 40]; stdDev := [of_int 2; of_int 2];
         population := 2 |} ]
  ∧ Classifier.merge (of_int 5) (Classifier.merge (of_int 5) centres_to_merge)
    = Classifier.merge (of_int 5) centres_to_merge.
Proof. split; vm_compute; reflexivity. Qed.

(** A pass over the pixel (3, 4), a border pixel and (3, 4) again: the
    published set is as before, the second working centroid holds the sum
    (6, 8) and the sum of squares (18, 32) of two pixels, and the two
    distances of 4 add up to 8. *)
Example accumulator_pass_of_three_pixels :
  ∃ this',
    Accumulator.pass [[of_int 3; of_int 4]; [one_half; of_int 1]; [of_int 3; of_int 4]] 2
      accumulator_at_start = Returned this'
    ∧ Accumulator.published this' = Some three_centres
    ∧ (∃ ws, Accumulator.working this' = Some ws
          ∧ ws !! 1 = Some {| clusterID := 2; mean := [of_int 6; of_int 8];
                              stdDev := [of_int 18; of_int 32]; population := 2 |})
    ∧ Accumulator.sumDist this' = to_double (of_int 8)
    ∧ Accumulator.numVals this' = 2%Z.
Proof.
  eexists. split; [reflexivity|]. split; [vm_compute; reflexivity|].
  split; [eexists; split; vm_compute; reflexivity|].
  split; vm_compute; reflexivity.
Qed.

(** * Further properties of the calibrations *)

(** ** What a call that ends has done *)
Section Completion.
Context {num : Type} {ops : Arith num}.

Lemma bandsWithin_perBand (c : Calibration num) n (numBands : Z) :
  (∀ i, i < n → ∃ b, bands c !! i = Some b ∧ (b ≤ numBands)%Z) →
  bandsWithin fst 0 (0 + n) (perBand c) numBands.
Proof.
  intros Hin i Hi. destruct (Hin i) as (b & Eb & Hb); [lia|].
  destruct (perBand_lookup_band c i b Eb) as [f Ef]. by exists (b, f).
Qed.

Lemma perBand_bandsWithin (c : Calibration num) i j (numBands : Z) :
  bandsWithin fst i j (perBand c) numBands →
  ∀ k b, i ≤ k < j → bands c !! k = Some b → (b ≤ numBands)%Z.
Proof.
  intros Hin k b Hk Eb. destruct (Hin k Hk) as ([b' f] & E & Hb).
  apply perBand_lookup in E as [E _]. by simplify_eq.
Qed.

(** Two buffers calibrated from the same one over the same entries are the
    same buffer. *)
Lemma calibratedBetween_unique {G : Type} (value : G → num → num) i j gs bv
    (out out1 out2 : list num) :
  calibratedBetween value i j gs bv out out1 →
  calibratedBetween value i j gs bv out out2 → out1 = out2.
Proof.
  intros (Hlen1 & Hsame1 & Hcal1) (Hlen2 & Hsame2 & Hcal2).
  apply list_eq. intros k.
  destruct (decide (i ≤ k < j)) as [Hk|Hk].
  - destruct (Hcal1 k Hk) as (g & v & Eg & Ev & ->).
    destruct (Hcal2 k Hk) as (g' & v' & Eg' & Ev' & ->). by simplify_eq.
  - rewrite Hsame1, Hsame2 by lia. done.
Qed.

(** A buffer calibrated over some entries holds them. *)
Lemma calibratedBetween_bounds {G : Type} (value : G → num → num) i j gs bv
    (out out' : list num) :
  calibratedBetween value i j gs bv out out' →
  i < j → j ≤ length bv ∧ j ≤ length out.
Proof.
  intros (Hlen & _ & Hcal) Hij.
  destruct (Hcal (j - 1)) as (g & v & _ & Ev & Eo); [lia|].
  apply lookup_lt_Some in Ev, Eo. lia.
Qed.

(** X1.  A call that reaches the checked loop with every configured band
    of the [numOutBands] entries within the input bands, and with buffers
    that hold [numOutBands] entries, returns: the output entries below
    [numOutBands] hold what the entry of [radGainOff] makes of the band
    value of the same index, the others are as they were. *)
Theorem calibration_returns_when_bands_are_within (c : Calibration num) numOutBands
    bandValues numBands output :
  reachesLoop c bandValues →
  (∀ i, i < loopBound numOutBands → ∃ b, bands c !! i = Some b ∧ (b ≤ numBands)%Z) →
  loopBound numOutBands ≤ length bandValues →
  loopBound numOutBands ≤ length output →
  ∃ output',
    calcImageValue c numOutBands bandValues numBands output = Returned output'
    ∧ length output' = length output
    ∧ (∀ i, loopBound numOutBands ≤ i → output' !! i = output !! i)
    ∧ (∀ i f v, i < loopBound numOutBands →
         values c !! i = Some f → bandValues !! i = Some v →
         output' !! i = Some (f v)).
Proof.
  intros Hr Hin Hbv Hout. rewrite calcImageValue_loop by done.
  destruct (bandLoop_returns fst snd (loopBound numOutBands) 0 (perBand c)
              bandValues numBands output) as (out' & -> & Hlen & Hsame & Hcal).
  { by apply bandsWithin_perBand. }
  { left. simpl. lia. }
  { left. simpl. lia. }
  exists out'. split; [done|]. split; [done|]. split.
  - intros i Hi. apply Hsame. lia.
  - intros i f v Hi Ef Ev. destruct (Hcal i) as ([b f'] & v' & E1 & E2 & ->); [lia|].
    apply perBand_lookup in E1 as [_ E1]. by simplify_eq.
Qed.

End Completion.

Lemma calibration_returns_when_bands_are_within_witness :
  ∃ output',
    calcImageValue ikonos_two_bands 2 [of_int 3; of_int 4] 2 [fzero; fzero; of_int 9]
    = Returned output'
    ∧ length output' = length [fzero; fzero; of_int 9 : spec_float]
    ∧ (∀ i, loopBound 2 ≤ i → output' !! i = [fzero; fzero; of_int 9] !! i)
    ∧ (∀ i f v, i < loopBound 2 →
         values ikonos_two_bands !! i = Some f → [of_int 3; of_int 4] !! i = Some v →
         output' !! i = Some (f v)).
Proof.
  apply (calibration_returns_when_bands_are_within (ops := Binary32.arith)).
  - exact I.
  - intros i Hi. destruct i as [|[|i]].
    + exists 1%Z. split; [reflexivity|lia].
    + exists 2%Z. split; [reflexivity|lia].
    + vm_compute in Hi. lia.
  - vm_compute. lia.
  - vm_compute. lia.
Defined.

(** The Ikonos call of the witness: 100000 * 3 / (5 * 2) and
    100000 * 4 / (4 * 5), the third entry untouched. *)
Example ikonos_on_two_bands :
  calcImageValue ikonos_two_bands 2 [of_int 3; of_int 4] 2 [fzero; fzero; of_int 9]
  = Returned [of_int 30000; of_int 20000; of_int 9].
Proof. vm_compute. reflexivity. Qed.

Section Outcomes.
Context {num : Type} {ops : Arith num}.

Lemma zeroLoop_undefined n : ∀ i (out : list num),
  i ≤ length out → length out < i + n → zeroLoop n i out = Undefined.
Proof.
  induction n as [|n IH]; intros i out Hi Hlen; simpl; [lia|].
  case_decide; [|done]. apply IH; rewrite length_insert; lia.
Qed.

Lemma zeroLoop_spec n (out : list num) :
  zeroLoop n 0 out
  = if decide (n ≤ length out)
    then Returned (replicate n fzero ++ drop n out)
    else Undefined.
Proof.
  case_decide.
  - by rewrite zeroLoop_returns by (simpl; lia).
  - apply zeroLoop_undefined; lia.
Qed.

Lemma reachesLoop_or_not (c : Calibration num) (bv : list num) :
  reachesLoop c bv ∨ ¬ reachesLoop c bv.
Proof.
  destruct c as [g|g|g|g|g|g|g|g]; simpl; try (by left).
  unfold notBorder. destruct (bv !! 0) as [v0|]; [|right; by intros (? & ? & ? & _)].
  destruct (to_int v0) as [z|] eqn:Ez.
  - destruct (decide (z = 0%Z)) as [->|Hz].
    + right. intros (v & z & [= <-] & Ez' & Hz). congruence.
    + left. by exists v0, z.
  - right. intros (v & z & [= <-] & Ez' & _). congruence.
Qed.

(** The three ways of a call: the checked loop, the zero fill of a Landsat
    border pixel, or a first band value that cannot be read or converted. *)
Lemma calcImageValue_cases (c : Calibration num) n bv nb out :
  (reachesLoop c bv
   ∧ calcImageValue c n bv nb out = bandLoop fst snd (loopBound n) 0 (perBand c) bv nb out)
  ∨ (¬ reachesLoop c bv ∧ isBorder bv
     ∧ calcImageValue c n bv nb out = zeroLoop (loopBound n) 0 out)
  ∨ (¬ reachesLoop c bv ∧ calcImageValue c n bv nb out = Undefined).
Proof.
  destruct (reachesLoop_or_not c bv) as [Hr|Hn].
  - left. split; [done|]. by apply calcImageValue_loop.
  - right. destruct c as [g|g|g|g|g|g|g|g]; simpl in Hn; try (by destruct Hn).
    simpl. unfold Landsat.calcImageValue.
    destruct (bv !! 0) as [v0|] eqn:E0; [|by right].
    destruct (to_int v0) as [z|] eqn:Ez; [|by right].
    destruct (Z.eqb_spec z 0) as [->|Hz].
    + left. split; [done|]. split; [|done]. by exists v0.
    + destruct Hn. by exists v0, z.
Qed.

End Outcomes.

Section Ends.
Context {num : Type} {ops : Arith num}.

Lemma zero_fill_lookup n (out : list num) i :
  n ≤ length out →
  (replicate n fzero ++ drop n out) !! i = if decide (i < n) then Some fzero else out !! i.
Proof.
  intros Hn. case_decide.
  - rewrite lookup_app_l by (rewrite length_replicate; lia).
    by apply lookup_replicate_2.
  - rewrite lookup_app_r by (rewrite length_replicate; lia).
    rewrite length_replicate, lookup_drop. f_equal. lia.
Qed.

Lemma zero_fill_length n (out : list num) :
  n ≤ length out → length (replicate n fzero ++ drop n out) = length out.
Proof. intros Hn. rewrite length_app, length_replicate, length_drop. lia. Qed.

(** X2.  The only exception of a calibration call is the band range
    exception, and it is never a false alarm: the call has reached the
    checked loop, and one of the [numOutBands] configured bands exceeds the
    input bands, the first of them at the entry where the loop stopped;
    from that entry on the output is as it was. *)
Theorem thrown_exception_tells_a_band_out_of_range (c : Calibration num) numOutBands
    bandValues numBands output e output' :
  calcImageValue c numOutBands bandValues numBands output = Thrown e output' →
  e = band_not_within
  ∧ reachesLoop c bandValues
  ∧ ∃ j b, j < loopBound numOutBands
      ∧ bands c !! j = Some b ∧ (b > numBands)%Z
      ∧ (∀ i b', i < j → bands c !! i = Some b' → (b' ≤ numBands)%Z)
      ∧ length output' = length output
      ∧ (∀ i, j ≤ i → output' !! i = output !! i).
Proof.
  intros E.
  destruct (calcImageValue_cases c numOutBands bandValues numBands output)
    as [[Hr El]|[(_ & _ & Ez)|[_ Eu]]].
  - rewrite El in E.
    pose proof (bandLoop_spec fst snd (loopBound numOutBands) 0 (perBand c)
                  bandValues numBands output) as Hspec.
    rewrite E in Hspec. destruct Hspec as (-> & j & [b f] & Hj & Ej & Hb & Hin & Hcal).
    split; [done|]. split; [done|]. exists j, b.
    apply perBand_lookup in Ej as [Ej _]. destruct Hcal as (Hlen & Hsame & _).
    split; [lia|]. split; [done|]. split; [done|]. split; [|split; [done|]].
    + intros i b' Hi Eb'. eapply perBand_bandsWithin; [done| |done]. lia.
    + intros i Hi. apply Hsame. lia.
  - rewrite Ez, zeroLoop_spec in E. by case_decide.
  - congruence.
Qed.

(** X3.  However a calibration call ends, it leaves the output buffer as
    long as it was and its entries from [numOutBands] on as they were. *)
Theorem calibration_keeps_the_later_output_entries (c : Calibration num) numOutBands
    bandValues numBands output :
  match calcImageValue c numOutBands bandValues numBands output with
  | Returned output' | Thrown _ output' =>
      length output' = length output
      ∧ ∀ i, loopBound numOutBands ≤ i → output' !! i = output !! i
  | Undefined => True
  end.
Proof.
  destruct (calcImageValue_cases c numOutBands bandValues numBands output)
    as [[Hr ->]|[(_ & _ & ->)|[_ ->]]]; [| |done].
  - pose proof (bandLoop_spec fst snd (loopBound numOutBands) 0 (perBand c)
                  bandValues numBands output) as Hspec.
    destruct (bandLoop fst snd (loopBound numOutBands) 0 (perBand c)
                bandValues numBands output) as [out'|e out'|]; [| |done].
    + destruct Hspec as (_ & Hlen & Hsame & _). split; [done|].
      intros i Hi. apply Hsame. lia.
    + destruct Hspec as (_ & j & g & Hj & _ & _ & _ & Hlen & Hsame & _). split; [done|].
      intros i Hi. apply Hsame. lia.
  - rewrite zeroLoop_spec. case_decide; [|done].
    split; [by apply zero_fill_length|].
    intros i Hi. rewrite zero_fill_lookup by done. case_decide; [lia|done].
Qed.

(** X4.  A calibration call is idempotent on its output buffer: called
    again with the buffer it has returned, on the same pixel, it returns
    that buffer. *)
Theorem calibration_is_idempotent (c : Calibration num) numOutBands
    bandValues numBands output output1 :
  calcImageValue c numOutBands bandValues numBands output = Returned output1 →
  calcImageValue c numOutBands bandValues numBands output1 = Returned output1.
Proof.
  intros E.
  destruct (calcImageValue_cases c numOutBands bandValues numBands output)
    as [[Hr El]|[(Hn & Hb & Ez)|[_ Eu]]]; [| |congruence].
  - rewrite El in E. rewrite calcImageValue_loop by done.
    pose proof (bandLoop_spec fst snd (loopBound numOutBands) 0 (perBand c)
                  bandValues numBands output) as Hspec.
    rewrite E in Hspec. destruct Hspec as (Hin & Hcal).
    pose proof Hcal as (Hlen & Hsame & Hval).
    destruct (bandLoop_returns fst snd (loopBound numOutBands) 0 (perBand c)
                bandValues numBands output1) as (out2 & -> & Hcal2); [done|..].
    { destruct (decide (0 < loopBound numOutBands)) as [Hpos|]; [left|right; lia].
      by destruct (calibratedBetween_bounds snd _ _ _ _ _ _ Hcal Hpos). }
    { destruct (decide (0 < loopBound numOutBands)) as [Hpos|]; [left|right; lia].
      destruct (calibratedBetween_bounds snd _ _ _ _ _ _ Hcal Hpos). simpl in *. lia. }
    f_equal. destruct Hcal2 as (Hlen2 & Hsame2 & Hval2).
    apply list_eq. intros k.
    destruct (decide (0 ≤ k < 0 + loopBound numOutBands)) as [Hk|Hk].
    + destruct (Hval k Hk) as (g & v & Eg & Ev & ->).
      destruct (Hval2 k Hk) as (g' & v' & Eg' & Ev' & ->). by simplify_eq.
    + apply Hsame2. lia.
  - rewrite Ez, zeroLoop_spec in E. case_decide as Hlen; [|done]. injection E as <-.
    destruct (calcImageValue_cases c numOutBands bandValues numBands
                (replicate (loopBound numOutBands) fzero ++ drop (loopBound numOutBands) output))
      as [[Hr _]|[(_ & _ & ->)|[_ Eu]]]; [done| |].
    + rewrite zeroLoop_spec, zero_fill_length by done. rewrite decide_True by done.
      f_equal. rewrite drop_app_length' by (by rewrite length_replicate). done.
    + destruct c as [g|g|g|g|g|g|g|g]; simpl in Hn; try (by destruct Hn).
      simpl in *. unfold Landsat.calcImageValue in *.
      destruct Hb as (v0 & E0 & E1). rewrite E0, E1 in *. simpl in *.
      rewrite zeroLoop_spec, zero_fill_length in Eu by done.
      by rewrite decide_True in Eu by done.
Qed.

(** X5.  More input bands change nothing: a call that returns with
    [numBands] input bands returns the same buffer with any larger
    [numBands]. *)
Theorem more_input_bands_change_nothing (c : Calibration num) numOutBands
    bandValues (numBands numBands' : Z) output output1 :
  (numBands ≤ numBands')%Z →
  calcImageValue c numOutBands bandValues numBands output = Returned output1 →
  calcImageValue c numOutBands bandValues numBands' output = Returned output1.
Proof.
  intros Hle E.
  destruct (calcImageValue_cases c numOutBands bandValues numBands output)
    as [[Hr El]|[(Hn & Hb & Ez)|[_ Eu]]]; [| |congruence].
  - rewrite El in E. rewrite calcImageValue_loop by done.
    pose proof (bandLoop_spec fst snd (loopBound numOutBands) 0 (perBand c)
                  bandValues numBands output) as Hspec.
    rewrite E in Hspec. destruct Hspec as (Hin & Hcal).
    destruct (bandLoop_returns fst snd (loopBound numOutBands) 0 (perBand c)
                bandValues numBands' output) as (out2 & -> & Hcal2).
    { intros k Hk. destruct (Hin k Hk) as (g & Eg & Hg). exists g. split; [done|lia]. }
    { destruct (decide (0 < loopBound numOutBands)) as [Hpos|]; [left|right; lia].
      by destruct (calibratedBetween_bounds snd _ _ _ _ _ _ Hcal Hpos). }
    { destruct (decide (0 < loopBound numOutBands)) as [Hpos|]; [left|right; lia].
      by destruct (calibratedBetween_bounds snd _ _ _ _ _ _ Hcal Hpos). }
    f_equal. by eapply calibratedBetween_unique.
  - destruct (calcImageValue_cases c numOutBands bandValues numBands' output)
      as [[Hr _]|[(_ & _ & ->)|[_ Eu]]]; [done|congruence|].
    destruct c as [g|g|g|g|g|g|g|g]; simpl in Hn; try (by destruct Hn).
    simpl in *. unfold Landsat.calcImageValue in *.
    destruct Hb as (v0 & E0 & E1). rewrite E0, E1 in *. simpl in *. congruence.
Qed.

(** X6.  Fewer output bands give a prefix: when the call for [numOutBands]
    returns, the call for a smaller count returns as well, with the same
    values below the smaller count and the entries from it on as they
    were. *)
Theorem fewer_output_bands_give_a_prefix (c : Calibration num) (numOutBands fewer : Z)
    bandValues numBands output output1 :
  loopBound fewer ≤ loopBound numOutBands →
  calcImageValue c numOutBands bandValues numBands output = Returned output1 →
  ∃ output2,
    calcImageValue c fewer bandValues numBands output = Returned output2
    ∧ (∀ i, i < loopBound fewer → output2 !! i = output1 !! i)
    ∧ (∀ i, loopBound fewer ≤ i → output2 !! i = output !! i).
Proof.
  intros Hle E.
  destruct (calcImageValue_cases c numOutBands bandValues numBands output)
    as [[Hr El]|[(Hn & Hb & Ez)|[_ Eu]]]; [| |congruence].
  - rewrite El in E. rewrite calcImageValue_loop by done.
    pose proof (bandLoop_spec fst snd (loopBound numOutBands) 0 (perBand c)
                  bandValues numBands output) as Hspec.
    rewrite E in Hspec. destruct Hspec as (Hin & Hcal).
    pose proof Hcal as (Hlen & Hsame & Hval).
    destruct (bandLoop_returns fst snd (loopBound fewer) 0 (perBand c)
                bandValues numBands output) as (out2 & -> & Hlen2 & Hsame2 & Hval2).
    { intros k Hk. apply Hin. lia. }
    { destruct (decide (0 < loopBound fewer)) as [Hpos|]; [left|right; lia].
      destruct (calibratedBetween_bounds snd _ _ _ _ _ _ Hcal); simpl in *; lia. }
    { destruct (decide (0 < loopBound fewer)) as [Hpos|]; [left|right; lia].
      destruct (calibratedBetween_bounds snd _ _ _ _ _ _ Hcal); simpl in *; lia. }
    exists out2. split; [done|]. split.
    + intros i Hi. destruct (Hval2 i) as (g & v & Eg & Ev & ->); [lia|].
      destruct (Hval i) as (g' & v' & Eg' & Ev' & ->); [lia|]. by simplify_eq.
    + intros i Hi. apply Hsame2. lia.
  - rewrite Ez, zeroLoop_spec in E. case_decide as Hlen; [|done]. injection E as <-.
    destruct (calcImageValue_cases c fewer bandValues numBands output)
      as [[Hr _]|[(_ & _ & ->)|[_ Eu]]]; [done| |].
    + rewrite zeroLoop_spec. rewrite decide_True by lia. eexists. split; [done|]. split.
      * intros i Hi. rewrite !zero_fill_lookup by lia. by rewrite !decide_True by lia.
      * intros i Hi. rewrite zero_fill_lookup by lia. by rewrite decide_False by lia.
    + destruct c as [g|g|g|g|g|g|g|g]; simpl in Hn; try (by destruct Hn).
      simpl in *. unfold Landsat.calcImageValue in *.
      destruct Hb as (v0 & E0 & E1). rewrite E0, E1 in *. simpl in *.
      rewrite zeroLoop_spec in Eu. by rewrite decide_True in Eu by lia.
Qed.

End Ends.

Lemma thrown_exception_tells_a_band_out_of_range_witness :
  band_not_within = band_not_within
  ∧ reachesLoop spot_two_bands [of_int 10; of_int 20]
  ∧ ∃ j b, j < loopBound 2
      ∧ bands spot_two_bands !! j = Some b ∧ (b > 2)%Z
      ∧ (∀ i b', i < j → bands spot_two_bands !! i = Some b' → (b' ≤ 2)%Z)
      ∧ length [of_int 5; fzero : spec_float] = length [fzero; fzero : spec_float]
      ∧ (∀ i, j ≤ i → [of_int 5; fzero] !! i = [fzero; fzero : spec_float] !! i).
Proof.
  apply (thrown_exception_tells_a_band_out_of_range (ops := Binary32.arith)
           spot_two_bands 2 [of_int 10; of_int 20] 2 [fzero; fzero]).
  vm_compute. reflexivity.
Defined.

Lemma calibration_is_idempotent_witness :
  calcImageValue ikonos_two_bands 2 [of_int 3; of_int 4] 2
    [of_int 30000; of_int 20000; of_int 9]
  = Returned [of_int 30000; of_int 20000; of_int 9].
Proof.
  apply (calibration_is_idempotent (ops := Binary32.arith) ikonos_two_bands 2
           [of_int 3; of_int 4] 2 [fzero; fzero; of_int 9]).
  vm_compute. reflexivity.
Defined.

Lemma more_input_bands_change_nothing_witness :
  calcImageValue ikonos_two_bands 2 [of_int 3; of_int 4] 7 [fzero; fzero; of_int 9]
  = Returned [of_int 30000; of_int 20000; of_int 9].
Proof.
  apply (more_input_bands_change_nothing (ops := Binary32.arith) ikonos_two_bands 2
           [of_int 3; of_int 4] 2 7).
  - lia.
  - vm_compute. reflexivity.
Defined.

Lemma fewer_output_bands_give_a_prefix_witness :
  ∃ output2,
    calcImageValue ikonos_two_bands 1 [of_int 3; of_int 4] 2 [fzero; fzero; of_int 9]
    = Returned output2
    ∧ (∀ i, i < loopBound 1 →
         output2 !! i = [of_int 30000; of_int 20000; of_int 9 : spec_float] !! i)
    ∧ (∀ i, loopBound 1 ≤ i → output2 !! i = [fzero; fzero; of_int 9 : spec_float] !! i).
Proof.
  apply (fewer_output_bands_give_a_prefix (ops := Binary32.arith) ikonos_two_bands 2 1
           [of_int 3; of_int 4] 2).
  - vm_compute. lia.
  - vm_compute. reflexivity.
Defined.

(** ** IRS and Landsat *)
Section IRSLandsat.
Context {num : Type} {ops : Arith num}.

(** X7.  The IRS body is the checked branch of the Landsat body: on a
    pixel that Landsat does not take for the border, and with the same
    fields in every entry, the two calls end the same way with the same
    output. *)
Theorem irs_is_landsat_off_the_border numOutBands
    (radGainOff : list (IRS.GainsOffsets num)) bandValues numBands output :
  notBorder bandValues →
  Landsat.calcImageValue numOutBands (IRS_as_Landsat <$> radGainOff)
    bandValues numBands output
  = IRS.calcImageValue numOutBands radGainOff bandValues numBands output.
Proof.
  intros Hnb. rewrite Landsat_notBorder by done. symmetry.
  apply (bandLoop_rel IRS.band IRS.value Landsat.band Landsat.value
           (λ g g', g' = IRS_as_Landsat g)).
  - by intros g g' ->.
  - apply Forall2_fmap_r, Forall_Forall2_diag, Forall_forall. done.
Qed.

End IRSLandsat.

Lemma irs_is_landsat_off_the_border_witness :
  Landsat.calcImageValue 2 (IRS_as_Landsat <$> irs_two_bands) [of_int 3; of_int 4] 2
    [fzero; fzero]
  = IRS.calcImageValue 2 irs_two_bands [of_int 3; of_int 4] 2 [fzero; fzero].
Proof.
  apply (irs_is_landsat_off_the_border (ops := Binary32.arith)).
  exists (of_int 3), 3%Z. split; [reflexivity|]. split; [reflexivity|discriminate].
Defined.

(** On a border pixel the two differ: IRS calibrates it, 2 * (0.5 - 1) + 2
    and 2 * (4 - 1) + 2, Landsat fills in zeros. *)
Example irs_and_landsat_on_the_border :
  IRS.calcImageValue 2 irs_two_bands [one_half; of_int 4] 2 [fzero; fzero]
  = Returned [of_int 1; of_int 8]
  ∧ Landsat.calcImageValue 2 (IRS_as_Landsat <$> irs_two_bands) [one_half; of_int 4] 2
      [fzero; fzero]
    = Returned [fzero; fzero].
Proof. split; vm_compute; reflexivity. Qed.

(** The product with the gain and the sum with [lMin] are taken in
    [double] and rounded once, at the store: for the band value 326 the
    entry above gives 14574580 * 2^-21, where the same operations taken in
    single precision one by one give 14574576 * 2^-21. *)
Example irs_gain_in_double :
  IRS.value irs_fractional_gain (of_int 326) = S754_finite false 14574580 (-21)
  ∧ ((IRS.lMax irs_fractional_gain - IRS.lMin irs_fractional_gain)
     / (IRS.qCalMax irs_fractional_gain - IRS.qCalMin irs_fractional_gain)
     * (of_int 326 - IRS.qCalMin irs_fractional_gain)
     + IRS.lMin irs_fractional_gain)%num
    = S754_finite false 14574576 (-21).
Proof. split; vm_compute; reflexivity. Qed.

(** ** A negative count of output bands *)
Section NegativeCount.
Context {num : Type} {ops : Arith num}.

Lemma loopBound_negative (n : Z) :
  (INT_MIN ≤ n < 0)%Z → Z.of_nat (loopBound n) = (n + UINT_MODULUS)%Z.
Proof.
  unfold INT_MIN, loopBound, UINT_MODULUS.
  change (2 ^ 31)%Z with 2147483648%Z. change (2 ^ 32)%Z with 4294967296%Z.
  intros Hn. rewrite Z2Nat.id by (apply Z.mod_pos_bound; lia).
  rewrite <- (Z_mod_plus_full n 1 4294967296). apply Z.mod_small. lia.
Qed.

(** X8.  [numOutBands] is an [int] and the loop counter an [unsigned int]:
    a negative count makes the loop run for the count plus 2^32 entries,
    so that with an output buffer of less than 2^31 entries no call
    returns. *)
Theorem negative_numOutBands_never_returns (c : Calibration num) (numOutBands : Z)
    bandValues numBands (output : list num) :
  (INT_MIN ≤ numOutBands < 0)%Z →
  (Z.of_nat (length output) ≤ INT_MAX)%Z →
  Z.of_nat (loopBound numOutBands) = (numOutBands + UINT_MODULUS)%Z
  ∧ returned (calcImageValue c numOutBands bandValues numBands output) = None.
Proof.
  intros Hn Hlen. pose proof (loopBound_negative numOutBands Hn) as Hbound.
  split; [done|].
  assert (length output < loopBound numOutBands) as Hlt.
  { revert Hn Hlen Hbound. unfold INT_MIN, INT_MAX, UINT_MODULUS.
    change (2 ^ 31)%Z with 2147483648%Z. change (2 ^ 32)%Z with 4294967296%Z. lia. }
  destruct (calcImageValue_cases c numOutBands bandValues numBands output)
    as [[Hr ->]|[(_ & _ & ->)|[_ ->]]]; [| |done].
  - pose proof (bandLoop_spec fst snd (loopBound numOutBands) 0 (perBand c)
                  bandValues numBands output) as Hspec.
    destruct (bandLoop fst snd (loopBound numOutBands) 0 (perBand c)
                bandValues numBands output) as [out'|e out'|]; [|done..].
    destruct Hspec as (_ & Hcal).
    destruct (calibratedBetween_bounds snd _ _ _ _ _ _ Hcal); simpl in *; lia.
  - rewrite zeroLoop_spec. by rewrite decide_False by lia.
Qed.

End NegativeCount.

Lemma negative_numOutBands_never_returns_witness :
  Z.of_nat (loopBound (-1)) = (-1 + UINT_MODULUS)%Z
  ∧ returned (calcImageValue spot_two_bands (-1) [of_int 10; of_int 20] 2 [fzero; fzero])
    = None.
Proof.
  apply (negative_numOutBands_never_returns (ops := Binary32.arith)).
  - split; vm_compute; [discriminate|reflexivity].
  - vm_compute. discriminate.
Defined.

(** ** Divisions that are not guarded *)

Lemma SFdiv_by_zero_or_nan x d :
  zeroFloat d = true ∨ d = S754_nan →
  finiteFloat (SFdiv Binary32.prec Binary32.emax x d) = false.
Proof. intros [Hd| ->]; [destruct x, d|destruct x]; done. Qed.

Lemma SFmul_zero_factor a b :
  zeroFloat a = true ∨ zeroFloat b = true →
  zeroFloat (SFmul Binary32.prec Binary32.emax a b) = true
  ∨ SFmul Binary32.prec Binary32.emax a b = S754_nan.
Proof. intros [H|H]; destruct a, b; try done; simpl; auto. Qed.

Lemma SFmul_not_finite prec emax a b :
  finiteFloat a = false → finiteFloat (SFmul prec emax a b) = false.
Proof. destruct a, b; done. Qed.

Lemma SFadd_not_finite prec emax a b :
  finiteFloat a = false → finiteFloat (SFadd prec emax a b) = false.
Proof. destruct a as [| [|] | |], b as [| [|] | |]; done. Qed.

(** The conversions between [float] and [double] keep an infinity an
    infinity and what is not a number not a number. *)
Lemma to_binary64_not_finite x :
  finiteFloat x = false → finiteFloat (Binary32.to_binary64 x) = false.
Proof. by destruct x. Qed.

Lemma of_binary64_not_finite x :
  finiteFloat x = false → finiteFloat (Binary32.of_binary64 x) = false.
Proof. by destruct x. Qed.

Lemma SFsub_diag x :
  zeroFloat (SFsub Binary32.prec Binary32.emax x x) = true
  ∨ SFsub Binary32.prec Binary32.emax x x = S754_nan.
Proof.
  destruct x as [[|]|[|]| |s m e]; simpl; auto.
  rewrite Z.min_id, Z.sub_diag. simpl. auto.
Qed.

(** X9.  The SPOT body divides by the gain without a look at it: with a
    gain of zero the call returns all the same, and the output entry of
    that band is an infinity or not a number, whatever the band value. *)
Theorem spot_zero_gain_gives_no_finite_radiance numOutBands
    (radGainOff : list (SPOT.GainsOffsets spec_float)) bandValues numBands output
    output' i g :
  SPOT.calcImageValue numOutBands radGainOff bandValues numBands output = Returned output' →
  i < loopBound numOutBands → radGainOff !! i = Some g →
  zeroFloat (SPOT.gain g) = true →
  ∃ y, output' !! i = Some y ∧ finiteFloat y = false.
Proof.
  intros E Hi Eg Hz.
  pose proof (bandLoop_spec SPOT.band SPOT.value (loopBound numOutBands) 0
                radGainOff bandValues numBands output) as Hspec.
  unfold SPOT.calcImageValue in E. rewrite E in Hspec.
  destruct Hspec as (_ & _ & _ & Hcal).
  destruct (Hcal i) as (g' & v & Eg' & Ev & ->); [lia|]. simplify_eq.
  eexists. split; [done|]. apply SFdiv_by_zero_or_nan. by left.
Qed.

Lemma spot_zero_gain_gives_no_finite_radiance_witness :
  ∃ y, [of_int 5; S754_infinity false] !! 1 = Some y ∧ finiteFloat y = false.
Proof.
  apply (spot_zero_gain_gives_no_finite_radiance 2 spot_zero_gain
           [of_int 10; of_int 20] 2 [fzero; fzero] [of_int 5; S754_infinity false] 1
           {| SPOT.band := 2; SPOT.gain := fzero |}).
  - vm_compute. reflexivity.
  - vm_compute. lia.
  - reflexivity.
  - reflexivity.
Defined.

(** X10.  The Ikonos body divides by [calCoef * bandwidth] without a look
    at it: when one of the two is zero the call returns all the same, and
    the output entry of that band is an infinity or not a number. *)
Theorem ikonos_zero_divisor_gives_no_finite_radiance numOutBands
    (radGainOff : list (Ikonos.GainsOffsets spec_float)) bandValues numBands output
    output' i g :
  Ikonos.calcImageValue numOutBands radGainOff bandValues numBands output
  = Returned output' →
  i < loopBound numOutBands → radGainOff !! i = Some g →
  zeroFloat (Ikonos.calCoef g) = true ∨ zeroFloat (Ikonos.bandwidth g) = true →
  ∃ y, output' !! i = Some y ∧ finiteFloat y = false.
Proof.
  intros E Hi Eg Hz.
  pose proof (bandLoop_spec Ikonos.band Ikonos.value (loopBound numOutBands) 0
                radGainOff bandValues numBands output) as Hspec.
  unfold Ikonos.calcImageValue in E. rewrite E in Hspec.
  destruct Hspec as (_ & _ & _ & Hcal).
  destruct (Hcal i) as (g' & v & Eg' & Ev & ->); [lia|]. simplify_eq.
  eexists. split; [done|]. apply SFdiv_by_zero_or_nan. by apply SFmul_zero_factor.
Qed.

Lemma ikonos_zero_divisor_gives_no_finite_radiance_witness :
  ∃ y, [S754_infinity false] !! 0 = Some y ∧ finiteFloat y = false.
Proof.
  apply (ikonos_zero_divisor_gives_no_finite_radiance 1 ikonos_zero_coefficient
           [of_int 3] 1 [fzero] [S754_infinity false] 0
           {| Ikonos.band := 1; Ikonos.calCoef := fzero; Ikonos.bandwidth := of_int 2 |}).
  - vm_compute. reflexivity.
  - vm_compute. lia.
  - reflexivity.
  - left. reflexivity.
Defined.

(** X11.  The IRS body divides by [qCalMax - qCalMin] without a look at
    it: when the two are the same the call returns all the same, and the
    output entry of that band is an infinity or not a number, whatever the
    band value and the radiance range. *)
Theorem irs_empty_quantisation_range_gives_no_finite_radiance numOutBands
    (radGainOff : list (IRS.GainsOffsets spec_float)) bandValues numBands output
    output' i g :
  IRS.calcImageValue numOutBands radGainOff bandValues numBands output = Returned output' →
  i < loopBound numOutBands → radGainOff !! i = Some g →
  IRS.qCalMax g = IRS.qCalMin g →
  ∃ y, output' !! i = Some y ∧ finiteFloat y = false.
Proof.
  intros E Hi Eg Hq.
  pose proof (bandLoop_spec IRS.band IRS.value (loopBound numOutBands) 0
                radGainOff bandValues numBands output) as Hspec.
  unfold IRS.calcImageValue in E. rewrite E in Hspec.
  destruct Hspec as (_ & _ & _ & Hcal).
  destruct (Hcal i) as (g' & v & Eg' & Ev & ->); [lia|]. simplify_eq.
  eexists. split; [done|]. unfold IRS.value. rewrite Hq. simpl.
  apply of_binary64_not_finite, SFadd_not_finite, SFmul_not_finite, to_binary64_not_finite,
    SFdiv_by_zero_or_nan, SFsub_diag.
Qed.

Lemma irs_empty_quantisation_range_gives_no_finite_radiance_witness :
  ∃ y, [S754_infinity false] !! 0 = Some y ∧ finiteFloat y = false.
Proof.
  apply (irs_empty_quantisation_range_gives_no_finite_radiance 1 irs_empty_range
           [of_int 7] 1 [fzero] [S754_infinity false] 0
           {| IRS.band := 1; IRS.lMax := of_int 10; IRS.lMin := of_int 2;
              IRS.qCalMax := of_int 5; IRS.qCalMin := of_int 5 |}).
  - vm_compute. reflexivity.
  - vm_compute. lia.
  - reflexivity.
  - reflexivity.
Defined.

(** With the band value on the empty range the radiance is not a
    number. *)
Example irs_empty_range_not_a_number :
  IRS.calcImageValue 1 irs_empty_range [of_int 5] 1 [fzero] = Returned [S754_nan].
Proof. vm_compute. reflexivity. Qed.

(** ** How wide the Landsat border test is *)

Lemma truncate_fraction s m p :
  (Zpos m < 2 ^ Zpos p)%Z → Binary32.truncate (S754_finite s m (Zneg p)) = Some 0%Z.
Proof.
  intros Hm. unfold Binary32.truncate.
  rewrite Z.shiftr_div_pow2 by lia. rewrite Z.div_small by lia.
  by destruct s.
Qed.

(** X12.  The Landsat border test converts the first band value to [int]:
    a first band value of any size below 1, of either sign, truncates to 0
    and is taken for the border like 0 itself, so that the call writes 0 to
    the [numOutBands] output entries whatever the other band values, the
    configuration and the band count are. *)
Theorem landsat_takes_fractions_for_the_border (s : bool) (m p : positive)
    numOutBands (radGainOff : list (Landsat.GainsOffsets spec_float))
    (otherBands : list spec_float) numBands (output : list spec_float) :
  (Zpos m < 2 ^ Zpos p)%Z →
  loopBound numOutBands ≤ length output →
  Landsat.calcImageValue numOutBands radGainOff
    (S754_finite s m (Zneg p) :: otherBands) numBands output
  = Returned (replicate (loopBound numOutBands) fzero ++ drop (loopBound numOutBands) output).
Proof.
  intros Hm Hlen.
  assert (to_int (S754_finite s m (Zneg p)) = Some 0%Z) as Ez.
  { by apply truncate_fraction. }
  unfold Landsat.calcImageValue. cbn [lookup list_lookup]. rewrite Ez.
  change (0 =? 0)%Z with true. cbn iota.
  rewrite zeroLoop_spec. by rewrite decide_True by done.
Qed.

(** Minus three quarters, which is -(3 * 2^-2), in the first band. *)
Lemma landsat_takes_fractions_for_the_border_witness :
  Landsat.calcImageValue 2 landsat_two_bands
    [S754_finite true 3 (-2); of_int 4] 2 [of_int 9; of_int 9; of_int 9]
  = Returned (replicate (loopBound 2) fzero ++ drop (loopBound 2) [of_int 9; of_int 9; of_int 9]).
Proof.
  apply (landsat_takes_fractions_for_the_border true 3 2).
  - vm_compute. reflexivity.
  - vm_compute. lia.
Defined.

(** ** The ASTER digital number 1 *)

Lemma SFmul_zero_finite a b :
  zeroFloat a = true → finiteFloat b = true →
  zeroFloat (SFmul Binary32.prec Binary32.emax a b) = true.
Proof. destruct a, b; done. Qed.

(** X13.  The ASTER body returns [(bandValues[i] - 1) * unitConCoef] for
    every band; so the digital number 1 is the level of no radiance: with a
    conversion coefficient of finite size the output entry of a band whose
    value is 1 is zero. *)
Theorem aster_digital_number_one_is_no_radiance numOutBands
    (radGainOff : list (ASTER.GainsOffsets spec_float)) bandValues numBands output
    output' i g v :
  ASTER.calcImageValue numOutBands radGainOff bandValues numBands output
  = Returned output' →
  i < loopBound numOutBands → radGainOff !! i = Some g → bandValues !! i = Some v →
  output' !! i = Some ((v - of_int 1) * ASTER.unitConCoef g)%num
  ∧ (v = of_int 1 → finiteFloat (ASTER.unitConCoef g) = true →
     ∃ y, output' !! i = Some y ∧ zeroFloat y = true).
Proof.
  intros E Hi Eg Ev.
  pose proof (bandLoop_spec ASTER.band ASTER.value (loopBound numOutBands) 0
                radGainOff bandValues numBands output) as Hspec.
  unfold ASTER.calcImageValue in E. rewrite E in Hspec.
  destruct Hspec as (_ & _ & _ & Hcal).
  destruct (Hcal i) as (g' & v' & Eg' & Ev' & Eo); [lia|]. simplify_eq.
  split; [done|]. intros -> Hfin. eexists. split; [done|].
  unfold ASTER.value. by apply SFmul_zero_finite.
Qed.

Lemma aster_digital_number_one_is_no_radiance_witness :
  [fzero; of_int 10 : spec_float] !! 0
  = Some ((of_int 1 - of_int 1) * ASTER.unitConCoef {| ASTER.band := 1; ASTER.unitConCoef := of_int 3 |})%num
  ∧ (of_int 1 = (of_int 1 : spec_float) →
     finiteFloat (ASTER.unitConCoef {| ASTER.band := 1; ASTER.unitConCoef := of_int 3 |}) = true →
     ∃ y, [fzero; of_int 10 : spec_float] !! 0 = Some y ∧ zeroFloat y = true).
Proof.
  apply (aster_digital_number_one_is_no_radiance 2 aster_two_bands
           [of_int 1; of_int 6] 2 [of_int 9; of_int 9] [fzero; of_int 10] 0).
  - vm_compute. reflexivity.
  - vm_compute. lia.
  - reflexivity.
  - reflexivity.
Defined.

(** ** What a call looks at *)
Section Inputs.
Context {num : Type} {ops : Arith num}.

Lemma bandLoop_bandValues_ext {G : Type} (band : G → Z) (value : G → num → num) n :
  ∀ i gs (bv bv' : list num) nb out,
    (∀ k, i ≤ k < i + n → bv !! k = bv' !! k) →
    bandLoop band value n i gs bv nb out = bandLoop band value n i gs bv' nb out.
Proof.
  induction n as [|n IH]; intros i gs bv bv' nb out Hsame; simpl; [done|].
  destruct (gs !! i) as [g|]; [|done].
  destruct (band g >? nb)%Z; [done|].
  rewrite <- (Hsame i) by lia. destruct (bv !! i) as [v|]; [|done].
  case_decide; [|done]. apply IH. intros k Hk. apply Hsame. lia.
Qed.

(** X14.  A call looks at the band values below [numOutBands] only, and
    the Landsat call at the first one besides: pixels that agree on these
    give the same outcome, whatever the input bands beyond them hold and
    however many they are. *)
Theorem band_values_beyond_numOutBands_are_not_read (c : Calibration num) numOutBands
    (bandValues bandValues' : list num) numBands output :
  (∀ i, i < max 1 (loopBound numOutBands) → bandValues !! i = bandValues' !! i) →
  calcImageValue c numOutBands bandValues numBands output
  = calcImageValue c numOutBands bandValues' numBands output.
Proof.
  intros Hsame.
  assert (∀ k, 0 ≤ k < 0 + loopBound numOutBands → bandValues !! k = bandValues' !! k) as Hl.
  { intros k Hk. apply Hsame. lia. }
  destruct c as [g|g|g|g|g|g|g|g]; simpl;
    [unfold Landsat.calcImageValue; rewrite <- (Hsame 0) by lia;
     destruct (bandValues !! 0) as [v0|]; [|done];
     destruct (to_int v0) as [z|]; [|done];
     destruct (z =? 0)%Z; [done|] | ..];
    by apply bandLoop_bandValues_ext.
Qed.

(** X15.  What a call writes does not depend on what the output buffer
    held: from another buffer of the same length the call returns as well,
    with the same values below [numOutBands]. *)
Theorem stale_output_does_not_show (c : Calibration num) numOutBands
    bandValues numBands (output stale output1 : list num) :
  length stale = length output →
  calcImageValue c numOutBands bandValues numBands output = Returned output1 →
  ∃ output2,
    calcImageValue c numOutBands bandValues numBands stale = Returned output2
    ∧ (∀ i, i < loopBound numOutBands → output2 !! i = output1 !! i)
    ∧ (∀ i, loopBound numOutBands ≤ i → output2 !! i = stale !! i).
Proof.
  intros Hlen E.
  destruct (calcImageValue_cases c numOutBands bandValues numBands output)
    as [[Hr El]|[(Hn & Hb & Ez)|[_ Eu]]]; [| |congruence].
  - rewrite El in E. rewrite calcImageValue_loop by done.
    pose proof (bandLoop_spec fst snd (loopBound numOutBands) 0 (perBand c)
                  bandValues numBands output) as Hspec.
    rewrite E in Hspec. destruct Hspec as (Hin & Hcal).
    pose proof Hcal as (Hlen1 & Hsame & Hval).
    destruct (bandLoop_returns fst snd (loopBound numOutBands) 0 (perBand c)
                bandValues numBands stale) as (out2 & -> & Hlen2 & Hsame2 & Hval2); [done|..].
    { destruct (decide (0 < loopBound numOutBands)) as [Hpos|]; [left|right; lia].
      by destruct (calibratedBetween_bounds snd _ _ _ _ _ _ Hcal Hpos). }
    { destruct (decide (0 < loopBound numOutBands)) as [Hpos|]; [left|right; lia].
      destruct (calibratedBetween_bounds snd _ _ _ _ _ _ Hcal Hpos). simpl in *. lia. }
    exists out2. split; [done|]. split.
    + intros i Hi. destruct (Hval2 i) as (g & v & Eg & Ev & ->); [lia|].
      destruct (Hval i) as (g' & v' & Eg' & Ev' & ->); [lia|]. by simplify_eq.
    + intros i Hi. apply Hsame2. lia.
  - rewrite Ez, zeroLoop_spec in E. case_decide as Hl; [|done]. injection E as <-.
    destruct (calcImageValue_cases c numOutBands bandValues numBands stale)
      as [[Hr _]|[(_ & _ & ->)|[_ Eu]]]; [done| |].
    + rewrite zeroLoop_spec. rewrite decide_True by lia. eexists. split; [done|]. split.
      * intros i Hi. rewrite !zero_fill_lookup by lia. by rewrite !decide_True by lia.
      * intros i Hi. rewrite zero_fill_lookup by lia. by rewrite decide_False by lia.
    + destruct c as [g|g|g|g|g|g|g|g]; simpl in Hn; try (by destruct Hn).
      simpl in *. unfold Landsat.calcImageValue in *.
      destruct Hb as (v0 & E0 & E1). rewrite E0, E1 in *. simpl in *.
      rewrite zeroLoop_spec in Eu. by rewrite decide_True in Eu by lia.
Qed.

End Inputs.

Lemma band_values_beyond_numOutBands_are_not_read_witness :
  calcImageValue ikonos_two_bands 2 [of_int 3; of_int 4] 2 [fzero; fzero; of_int 9]
  = calcImageValue ikonos_two_bands 2 [of_int 3; of_int 4; of_int 77; of_int 78] 2
      [fzero; fzero; of_int 9].
Proof.
  apply (band_values_beyond_numOutBands_are_not_read (ops := Binary32.arith)).
  intros i Hi. destruct i as [|[|i]]; [reflexivity..|]. vm_compute in Hi. lia.
Defined.

Lemma stale_output_does_not_show_witness :
  ∃ output2,
    calcImageValue ikonos_two_bands 2 [of_int 3; of_int 4] 2 [of_int 1; of_int 2; of_int 3]
    = Returned output2
    ∧ (∀ i, i < loopBound 2 →
         output2 !! i = [of_int 30000; of_int 20000; of_int 9 : spec_float] !! i)
    ∧ (∀ i, loopBound 2 ≤ i → output2 !! i = [of_int 1; of_int 2; of_int 3 : spec_float] !! i).
Proof.
  apply (stale_output_does_not_show (ops := Binary32.arith) ikonos_two_bands 2
           [of_int 3; of_int 4] 2 [fzero; fzero; of_int 9]).
  - reflexivity.
  - vm_compute. reflexivity.
Defined.
